(** * SLCAN bridge (slcan.ino): a shallow embedding and its properties

    The sketch bridges a serial port and an MCP2515 CAN controller with the
    ASCII SLCAN protocol.  Its three functions are embedded below:

    - [loop]            one iteration of the Arduino main loop,
    - [parseSlcan]      the command dispatcher and transmit decoder,
    - [sendSlcanFrame]  the encoder of a received frame.

    Characters are [ascii], numbers are [Z] with the C conversions written
    out, arrays are lists read and written by index.  A read or write outside
    an array has no defined behaviour in C: the embedding returns [None]
    there, so a result [Some _] also says that every access was in bounds.
    Calls to the two collaborators ([Serial] and [mcp2515]) that act on the
    outside world are recorded, oldest first, in the [trace] field of the
    state. *)

From Stdlib Require Import ZArith Ascii String Lia.
From stdpp Require Import base option list strings.

Open Scope Z_scope.

(** ** Characters and the libc helpers the sketch calls *)

Module C.

Definition NUL : ascii := Ascii.zero.
Definition CR  : ascii := "013"%char.   (* '\r' *)
Definition LF  : ascii := "010"%char.   (* '\n' *)
Definition BEL : ascii := "007"%char.   (* '\a' *)

Definition code (c : ascii) : Z := Z.of_N (N_of_ascii c).
Definition chr (n : Z) : ascii := ascii_of_N (Z.to_N n).

(** [toupper]: the letters a..z move to A..Z, every other byte is kept
    (bytes from 0x80 on included, whatever the signedness of [char]). *)
Definition toupper (c : ascii) : ascii :=
  if (97 <=? code c) && (code c <=? 122) then chr (code c - 32) else c.

(** [isspace] in the C locale: space, \t, \n, \v, \f, \r. *)
Definition isspace (c : ascii) : bool :=
  (code c =? 32) || ((9 <=? code c) && (code c <=? 13)).

(** Value of a character as a digit, before the comparison with the base. *)
Definition digit_val (c : ascii) : option Z :=
  let n := code c in
  if (48 <=? n) && (n <=? 57) then Some (n - 48)
  else if (65 <=? n) && (n <=? 90) then Some (n - 55)
  else if (97 <=? n) && (n <=? 122) then Some (n - 87)
  else None.

Definition ULONG_MAX : Z := 2 ^ 32 - 1.

Fixpoint skip_space (s : list ascii) : list ascii :=
  match s with
  | c :: s' => if isspace c then skip_space s' else s
  | [] => []
  end.

(** The digits loop of [strtoul]: stops at the first character that is not
    a digit of the base (the terminating NUL is one). *)
Fixpoint digits (base : Z) (s : list ascii) (acc : Z) : Z :=
  match s with
  | c :: s' =>
      match digit_val c with
      | Some d => if d <? base then digits base s' (acc * base + d) else acc
      | None => acc
      end
  | [] => acc
  end.

(** [strtoul(s, nullptr, 16)] on a NUL-terminated character array: leading
    white space, an optional sign, an optional 0x/0X, then hex digits.  An
    overflow gives [ULONG_MAX]; a minus sign negates in [unsigned long]. *)
Definition strtoul16 (s : list ascii) : Z :=
  let s1 := skip_space s in
  let '(neg, s2) :=
    match s1 with
    | c :: r => if (c =? "-")%char then (true, r)
                else if (c =? "+")%char then (false, r)
                else (false, s1)
    | [] => (false, s1)
    end in
  let s3 :=
    match s2 with
    | c :: x :: r =>
        if (c =? "0")%char && ((x =? "x")%char || (x =? "X")%char) then r else s2
    | _ => s2
    end in
  let acc := digits 16 s3 0 in
  if ULONG_MAX <? acc then ULONG_MAX
  else if neg then (- acc) mod 2 ^ 32
  else acc.

Definition hex_upper : list ascii :=
  list_ascii_of_string "0123456789ABCDEF".

Definition hex_char (d : Z) : ascii := nth (Z.to_nat d) hex_upper "0"%char.

(** Hex digits of a positive number, most significant first; the fuel is the
    number of digits an [unsigned int] of 32 bits can have. *)
Fixpoint hex_digits (fuel : nat) (v : Z) (acc : list ascii) : list ascii :=
  match fuel with
  | O => acc
  | S k => if v =? 0 then acc
           else hex_digits k (v / 16) (hex_char (v mod 16) :: acc)
  end.

(** The characters [sprintf] produces for "%0<width>X": at least one digit,
    padded on the left with zeros up to the width, never truncated.  The
    sketch passes values of at most 0x7FF, so the width of [unsigned int] on
    the target (16 bits on AVR) plays no role. *)
Definition fmt_X (width : nat) (v : Z) : list ascii :=
  let ds := if v =? 0 then ["0"%char] else hex_digits 8 v [] in
  replicate (width - length ds) "0"%char ++ ds.

(** [a[i] = c] on an array. *)
Definition store {A} (a : list A) (i : nat) (x : A) : option (list A) :=
  if decide (i < length a)%nat then Some (<[i:=x]> a) else None.

(** [sprintf(out + pos, ...)]: the characters and a terminating NUL. *)
Definition sprintf (out : list ascii) (pos : nat) (s : list ascii)
  : option (list ascii) :=
  if decide (pos + length s + 1 <= length out)%nat
  then Some (list_inserts pos (s ++ [NUL]) out)
  else None.

(** Conversions to the unsigned 8-bit types. *)
Definition u8 (v : Z) : Z := v mod 256.
Definition u8n (n : nat) : nat := (n mod 256)%nat.

End C.

Import C.

(** ** Data *)

(** [struct can_frame] of the controller library: a 32-bit identifier word,
    an 8-bit length and eight data bytes. *)
Record can_frame := CanFrame {
  can_id  : Z;
  can_dlc : Z;
  data    : list Z
}.

(** The C type of a frame: what every value of the struct satisfies. *)
Definition frame_wf (f : can_frame) : Prop :=
  0 <= can_id f < 2 ^ 32 /\ 0 <= can_dlc f < 256 /\
  length (data f) = 8%nat /\ Forall (fun b => 0 <= b < 256) (data f).

(** The constant is declared in the controller library's can.h, which is not
    part of the sketch: bit 31 of the identifier word marks an extended
    (29-bit) identifier. *)
Definition CAN_EFF_FLAG : Z := 0x80000000.

(** Calls that act on the outside world. *)
Inductive event :=
| SerialWrite1 (c : ascii)          (* Serial.write(c) *)
| SerialWriteN (l : list ascii)     (* Serial.write(buf, n) *)
| SendMessage (f : can_frame).      (* mcp2515.sendMessage(&f) *)

(** The globals of the sketch and the trace of calls made so far. *)
Record state := State {
  rxFrame  : can_frame;
  slcanBuf : list ascii;   (* char slcanBuf[32] *)
  slcanLen : nat;          (* uint8_t *)
  canOpen  : bool;
  trace    : list event
}.

Definition SLCAN_BUF_SIZE : nat := 32.

(** The globals as the C start-up code and the initialisers leave them. *)
Definition initial_state : state :=
  {| rxFrame := CanFrame 0 0 (replicate 8 0);
     slcanBuf := replicate SLCAN_BUF_SIZE NUL;
     slcanLen := 0;
     canOpen := true;
     trace := [] |}.

Definition set_canOpen (b : bool) (st : state) : state :=
  State (rxFrame st) (slcanBuf st) (slcanLen st) b (trace st).
Definition set_slcanBuf (l : list ascii) (st : state) : state :=
  State (rxFrame st) l (slcanLen st) (canOpen st) (trace st).
Definition set_slcanLen (n : nat) (st : state) : state :=
  State (rxFrame st) (slcanBuf st) n (canOpen st) (trace st).
Definition set_rxFrame (f : can_frame) (st : state) : state :=
  State f (slcanBuf st) (slcanLen st) (canOpen st) (trace st).
Definition emit (e : event) (st : state) : state :=
  State (rxFrame st) (slcanBuf st) (slcanLen st) (canOpen st) (trace st ++ [e]).

Definition set_can_id (v : Z) (f : can_frame) : can_frame :=
  CanFrame v (can_dlc f) (data f).
Definition set_can_dlc (v : Z) (f : can_frame) : can_frame :=
  CanFrame (can_id f) v (data f).
Definition set_data (i : nat) (v : Z) (f : can_frame) : option can_frame :=
  d ← store (data f) i v; Some (CanFrame (can_id f) (can_dlc f) d).

(** ** parseSlcan *)

(** The payload loop
    [for (uint8_t i = 0; i < txFrame.can_dlc && i < 8; i++)]
    with [p = cmd + 5 + 2 * i].  The bound [i < 8] ends it within nine tests
    of the condition, which is the fuel [parseSlcan] gives. *)
Fixpoint parse_payload (fuel : nat) (cmd : list ascii) (i : nat)
    (txFrame : can_frame) : option can_frame :=
  match fuel with
  | O => None
  | S k =>
      if (Z.of_nat i <? can_dlc txFrame) && (Z.of_nat i <? 8) then
        p0 ← cmd !! (5 + 2 * i)%nat;
        p1 ← cmd !! (5 + 2 * i + 1)%nat;
        f ← set_data i (u8 (strtoul16 [p0; p1; NUL])) txFrame;
        parse_payload k cmd (u8n (i + 1)) f
      else Some txFrame
  end.

(** The transmit case: [txFrame0] is the content of the local struct before
    any field is assigned (it is not initialised). *)
Definition parse_transmit (cmd : list ascii) (txFrame0 : can_frame)
    (st : state) : option state :=
  c1 ← cmd !! 1%nat; c2 ← cmd !! 2%nat; c3 ← cmd !! 3%nat; c4 ← cmd !! 4%nat;
  let idStr := [c1; c2; c3; NUL] in
  let dlcStr := [c4; NUL] in
  let f1 := set_can_id (strtoul16 idStr mod 2 ^ 32) txFrame0 in
  let f2 := set_can_dlc (u8 (strtoul16 dlcStr)) f1 in
  f3 ← parse_payload 9 cmd 0 f2;
  Some (emit (SendMessage f3) st).

(** [parseSlcan(cmd)]: the switch gives the state and the [ack] flag. *)
Definition parseSlcan (cmd : list ascii) (txFrame0 : can_frame) (st : state)
  : option state :=
  c0 ← cmd !! 0%nat;
  '(st1, ack) ←
    (if (c0 =? "O")%char then Some (set_canOpen true st, true)
     else if (c0 =? "C")%char then Some (set_canOpen false st, true)
     else if (c0 =? "T")%char || (c0 =? "t")%char then
       st' ← parse_transmit cmd txFrame0 st; Some (st', true)
     else Some (emit (SerialWrite1 BEL) st, false));
  Some (if ack : bool then emit (SerialWrite1 CR) st1 else st1).

(** ** sendSlcanFrame *)

(** The payload loop [for (uint8_t i = 0; i < f.can_dlc; i++)]; [i] stays
    below 256, so 257 tests of the condition end it. *)
Fixpoint send_payload (fuel : nat) (f : can_frame) (i : nat) (pos : nat)
    (out : list ascii) : option (nat * list ascii) :=
  match fuel with
  | O => None
  | S k =>
      if Z.of_nat i <? can_dlc f then
        b ← data f !! i;
        out1 ← sprintf out pos (fmt_X 2 b);
        send_payload k f (u8n (i + 1)) (u8n (pos + 2)) out1
      else Some (pos, out)
  end.

(** [out0] is the content of the local array [out[32]] at entry (it is not
    initialised). *)
Definition sendSlcanFrame (f : can_frame) (out0 : list ascii) (st : state)
  : option state :=
  if negb (Z.land (can_id f) CAN_EFF_FLAG =? 0) then Some st
  else
    let pos := 0%nat in
    out1 ← store out0 pos "t"%char;
    let pos := u8n (pos + 1) in
    out2 ← sprintf out1 pos (fmt_X 3 (Z.land (can_id f) 0x7FF));
    let pos := u8n (pos + 3) in
    out3 ← sprintf out2 pos (fmt_X 1 (Z.land (can_dlc f) 0x0F));
    let pos := u8n (pos + 1) in
    '(pos, out4) ← send_payload 257 f 0 pos out3;
    out5 ← store out4 pos CR;
    let pos := u8n (pos + 1) in
    Some (emit (SerialWriteN (take pos out5)) st).

(** ** loop *)

(** What one iteration meets: the byte [Serial.read()] returns when
    [Serial.available()] holds, the frame [readMessage] stores when it
    returns [ERROR_OK], and the contents of the two uninitialised locals. *)
Record env := Env {
  serial_in : option ascii;
  can_rx    : option can_frame;
  txFrame0  : can_frame;
  out0      : list ascii
}.

Definition is_terminator (c : ascii) : bool :=
  (c =? CR)%char || (c =? LF)%char.

(** Step 1 of [loop]: at most one byte of the serial port. *)
Definition loop_serial (e : env) (st : state) : option state :=
  match serial_in e with
  | Some c =>
      if is_terminator c then
        if decide (0 < slcanLen st)%nat then
          buf ← store (slcanBuf st) (slcanLen st) NUL;
          let st1 := set_slcanBuf buf st in
          st2 ← parseSlcan (slcanBuf st1) (txFrame0 e) st1;
          Some (set_slcanLen 0 st2)
        else Some st
      else
        if decide (slcanLen st + 1 < SLCAN_BUF_SIZE)%nat then
          buf ← store (slcanBuf st) (slcanLen st) (toupper c);
          Some (set_slcanLen (u8n (slcanLen st + 1)) (set_slcanBuf buf st))
        else Some st
  | None => Some st
  end.

(** Step 2 of [loop]: at most one frame of the controller, polled only when
    [canOpen] holds. *)
Definition loop_can (e : env) (st : state) : option state :=
  if canOpen st then
    match can_rx e with
    | Some f => sendSlcanFrame f (out0 e) (set_rxFrame f st)
    | None => Some st
    end
  else Some st.

Definition loop (e : env) (st : state) : option state :=
  st1 ← loop_serial e st; loop_can e st1.

(** The main program after [setup]: [loop] again and again, here over the
    finitely many iterations whose environments are listed. *)
Fixpoint run (es : list env) (st : state) : option state :=
  match es with
  | [] => Some st
  | e :: es' => st1 ← loop e st; run es' st1
  end.

(** ** Reference values used in the statements *)

Definition chars (s : string) : list ascii := list_ascii_of_string s.
Arguments chars s%_string.

(** A transmit line in the receive buffer: the line, its terminator, and
    whatever earlier lines left behind. *)
Definition buffer_of (line rest : list ascii) : list ascii :=
  take SLCAN_BUF_SIZE (line ++ NUL :: rest ++ replicate SLCAN_BUF_SIZE NUL).

Definition frame0 : can_frame := CanFrame 0 0 (replicate 8 0).

(** Exactly [w] upper-case hex digits of [v], most significant first. *)
Fixpoint hex_field (w : nat) (v : Z) : list ascii :=
  match w with
  | O => []
  | S k => hex_field k (v / 16) ++ [hex_char (v mod 16)]
  end.

(** The fixed-width line of a standard frame, without its terminator. *)
Definition slcan_line (f : can_frame) : list ascii :=
  "t"%char :: hex_field 3 (Z.land (can_id f) 0x7FF)
  ++ hex_field 1 (Z.land (can_dlc f) 0x0F)
  ++ concat (map (hex_field 2) (take (Z.to_nat (can_dlc f)) (data f))).

(** The two characters at [cmd + 5 + 2 * i], as the loop copies them. *)
Definition pair_at (cmd : list ascii) (i : nat) : list ascii :=
  [nth (5 + 2 * i) cmd NUL; nth (5 + 2 * i + 1) cmd NUL; NUL].

(** The [n] payload bytes decoded from offset 5 on. *)
Definition payload_of (cmd : list ascii) (n : nat) : list Z :=
  map (fun i => u8 (strtoul16 (pair_at cmd i))) (seq 0 n).

(** The identifier and length fields at their fixed offsets. *)
Definition id_field (cmd : list ascii) : list ascii :=
  [nth 1 cmd NUL; nth 2 cmd NUL; nth 3 cmd NUL; NUL].
Definition dlc_field (cmd : list ascii) : list ascii := [nth 4 cmd NUL; NUL].

(** The frame the transmit case hands to the controller. *)
Definition decoded_frame (cmd : list ascii) (txFrame0 : can_frame) : can_frame :=
  let dlc := u8 (strtoul16 (dlc_field cmd)) in
  let n := Z.to_nat (Z.min dlc 8) in
  CanFrame (strtoul16 (id_field cmd) mod 2 ^ 32) dlc
           (payload_of cmd n ++ drop n (data txFrame0)).

Definition is_transmit (c : ascii) : bool := (c =? "T")%char || (c =? "t")%char.

(** The state [parseSlcan] leaves, as a function of the first character. *)
Definition dispatched (cmd : list ascii) (txFrame0 : can_frame) (st : state)
  : state :=
  let c0 := nth 0 cmd NUL in
  if (c0 =? "O")%char then emit (SerialWrite1 CR) (set_canOpen true st)
  else if (c0 =? "C")%char then emit (SerialWrite1 CR) (set_canOpen false st)
  else if is_transmit c0 then
    emit (SerialWrite1 CR) (emit (SendMessage (decoded_frame cmd txFrame0)) st)
  else emit (SerialWrite1 BEL) st.

(** The first character is one of the commands the switch knows. *)
Definition is_known (c : ascii) : bool :=
  (c =? "O")%char || (c =? "C")%char || is_transmit c.

(** The data length a transmit line declares at offset 4. *)
Definition declared_length (cmd : list ascii) : Z :=
  u8 (strtoul16 (dlc_field cmd)).

(** [strlen]: the number of characters before the first NUL. *)
Fixpoint strlen (s : list ascii) : nat :=
  match s with
  | c :: s' => if (c =? NUL)%char then 0%nat else S (strlen s')
  | [] => 0%nat
  end.

Definition is_hex_digit (c : ascii) : bool :=
  match digit_val c with Some d => d <? 16 | None => false end.

(** Projections of a trace: the bytes written to the serial port, the frames
    handed to the controller, the lines written by [sendSlcanFrame]. *)
Definition serial_bytes (tr : list event) : list ascii :=
  concat (map (fun ev => match ev with
                         | SerialWrite1 c => [c]
                         | SerialWriteN l => l
                         | SendMessage _ => []
                         end) tr).

Definition sent_frames (tr : list event) : list can_frame :=
  omap (fun ev => match ev with SendMessage f => Some f | _ => None end) tr.

Definition forwarded (tr : list event) : list (list ascii) :=
  omap (fun ev => match ev with SerialWriteN l => Some l | _ => None end) tr.

(** The line an iteration forwards when the bus is open: the one of the
    frame the controller holds, if it is a standard frame. *)
Definition forwarded_line (e : env) : list (list ascii) :=
  match can_rx e with
  | Some f => if Z.land (can_id f) CAN_EFF_FLAG =? 0
              then [slcan_line f ++ [CR]] else []
  | None => []
  end.

(** The buffer as [parseSlcan] receives it: terminated at [slcanLen]. *)
Definition terminated (st : state) : list ascii :=
  <[slcanLen st := NUL]> (slcanBuf st).

(** The iteration completes a command line whose first character is [k]. *)
Definition completes (k : ascii) (e : env) (st : state) : bool :=
  match serial_in e with
  | Some c => is_terminator c && bool_decide (0 < slcanLen st)%nat
              && (nth 0 (slcanBuf st) NUL =? k)%char
  | None => false
  end.

(** The iteration completes a command line, whatever it is. *)
Definition completes_line (e : env) (st : state) : bool :=
  match serial_in e with
  | Some c => is_terminator c && bool_decide (0 < slcanLen st)%nat
  | None => false
  end.

(** No iteration of the run completes a command line that starts with [k]. *)
Fixpoint no_command (k : ascii) (es : list env) (st : state) : Prop :=
  match es with
  | [] => True
  | e :: es' =>
      completes k e st = false /\
      match loop e st with
      | Some st1 => no_command k es' st1
      | None => True
      end
  end.

(** An iteration that receives the byte [c] and no frame. *)
Definition byte_env (c : ascii) : env :=
  Env (Some c) None frame0 (replicate 32 NUL).

(** An iteration that receives the frame [f] and no byte. *)
Definition frame_env (f : can_frame) : env :=
  Env None (Some f) frame0 (replicate 32 NUL).

(** A field that [strtoul] reads as bare hex digits: it starts with neither
    white space nor a sign nor a 0x/0X prefix. *)
Definition plain_field (s : list ascii) : bool :=
  match s with
  | c :: r =>
      negb (isspace c) && negb (c =? "-")%char && negb (c =? "+")%char
      && negb ((c =? "0")%char
               && match r with
                  | x :: _ => (x =? "x")%char || (x =? "X")%char
                  | [] => false
                  end)
  | [] => true
  end.

(** Two readings of the protocol description that the sketch does not
    follow; they are stated here to be refuted below.  The first: a transmit
    line shorter than its declared length asks for is answered with a bell
    and nothing else.  The second: a field whose first character is not a
    hex digit decodes to 0. *)
Definition rejects_short_transmit (cmd : list ascii) (tx0 : can_frame)
    (st : state) : Prop :=
  is_transmit (nth 0 cmd NUL) = true ->
  (strlen cmd < 5 + 2 * Z.to_nat (declared_length cmd))%nat ->
  exists st', parseSlcan cmd tx0 st = Some st' /\
              trace st' = trace st ++ [SerialWrite1 BEL].

Definition no_hex_digit_decodes_to_zero (s : list ascii) : Prop :=
  match s with
  | c :: _ => is_hex_digit c = false -> strtoul16 s = 0
  | [] => True
  end.

(** What a state must satisfy for the array accesses of [loop] to be in
    bounds; [setup] establishes it and every iteration keeps it. *)
Definition state_wf (st : state) : Prop :=
  length (slcanBuf st) = SLCAN_BUF_SIZE /\ (slcanLen st < SLCAN_BUF_SIZE)%nat.

(** What an environment must satisfy: the locals have their declared sizes,
    and a frame the controller delivers has its C type and at most eight data
    bytes ([readMessage] of the controller library fails on a longer one).
    Without the bound [sendSlcanFrame] reads past [data[7]]. *)
Definition env_wf (e : env) : Prop :=
  length (out0 e) = 32%nat /\ length (data (txFrame0 e)) = 8%nat /\
  forall f, can_rx e = Some f -> frame_wf f /\ can_dlc f <= 8.

(** ** Reference values for the properties of the whole bridge *)

(** A lower-case letter, the bytes [toupper] moves. *)
Definition is_lower (c : ascii) : bool := (97 <=? code c) && (code c <=? 122).

(** No byte of the receive buffer is a lower-case letter or a terminator. *)
Definition buf_clean (st : state) : Prop :=
  Forall (fun c => is_lower c = false /\ is_terminator c = false) (slcanBuf st).

(** The same iteration with the serial byte, if any, in upper case. *)
Definition upper_env (e : env) : env :=
  Env (option_map toupper (serial_in e)) (can_rx e) (txFrame0 e) (out0 e).

(** The same iteration with no frame at the controller. *)
Definition mute (e : env) : env :=
  Env (serial_in e) None (txFrame0 e) (out0 e).

(** The bytes written one at a time: the answers of the dispatcher. *)
Definition responses (tr : list event) : list ascii :=
  omap (fun ev => match ev with SerialWrite1 c => Some c | _ => None end) tr.

(** The answer an iteration owes: one byte if it completes a line. *)
Definition response_of (e : env) (st : state) : list ascii :=
  if completes_line e st
  then [if is_known (nth 0 (slcanBuf st) NUL) then CR else BEL]
  else [].

(** A transmit line as the host writes it: the command letter, three hex
    digits of the identifier, one of the number of bytes, two per byte. *)
Definition tx_line (c0 : ascii) (id : Z) (bytes : list Z) : list ascii :=
  c0 :: hex_field 3 id ++ hex_field 1 (Z.of_nat (length bytes))
  ++ concat (map (hex_field 2) bytes).

(** The receive buffer after the bytes [l] arrived in an empty line buffer
    and a terminator followed: at most 31 of them, in upper case, then NUL,
    then what the buffer held before. *)
Definition assembled (l : list ascii) (buf : list ascii) : list ascii :=
  list_inserts 0 (take 31 (map toupper l) ++ [NUL]) buf.

(** Two states that agree on everything the command side reads and
    writes: the line buffer, the bus flag, the answers given and the frames
    handed to the controller. *)
Definition same_commands (a b : state) : Prop :=
  slcanBuf a = slcanBuf b /\ slcanLen a = slcanLen b /\
  canOpen a = canOpen b /\
  responses (trace a) = responses (trace b) /\
  sent_frames (trace a) = sent_frames (trace b).

(** The frame an iteration hands to the controller: the one decoded from the
    line it completes, if that is a transmit line. *)
Definition sent_by (e : env) (st : state) : list can_frame :=
  if completes_line e st && is_transmit (nth 0 (slcanBuf st) NUL)
  then [decoded_frame (terminated st) (txFrame0 e)]
  else [].

(** The line buffer and its length after step 1 of an iteration. *)
Definition next_line (e : env) (st : state) : list ascii * nat :=
  match serial_in e with
  | Some c =>
      if is_terminator c then
        if decide (0 < slcanLen st)%nat then (terminated st, 0%nat)
        else (slcanBuf st, slcanLen st)
      else
        if decide (slcanLen st + 1 < SLCAN_BUF_SIZE)%nat
        then (<[slcanLen st := toupper c]> (slcanBuf st), (slcanLen st + 1)%nat)
        else (slcanBuf st, slcanLen st)
  | None => (slcanBuf st, slcanLen st)
  end.

(** The number of answers a stream of serial bytes is owed: one for each
    terminator that ends a line of at least one byte.  [pending] says that
    bytes of the current line have arrived already. *)
Fixpoint answers_due (pending : bool) (l : list ascii) : nat :=
  match l with
  | [] => 0%nat
  | c :: l' =>
      if is_terminator c
      then ((if pending then 1 else 0) + answers_due false l')%nat
      else answers_due true l'
  end.

(** * Properties *)

(** ** The scenarios of the protocol description, by evaluation *)

Example parse_scenario2 :
  parseSlcan (buffer_of (chars "t0032AABB") []) frame0 initial_state
  = Some (State frame0 (replicate 32 NUL) 0 true
            [SendMessage (CanFrame 3 2 [0xAA; 0xBB; 0; 0; 0; 0; 0; 0]);
             SerialWrite1 CR]).
Proof. reflexivity. Qed.

Example send_scenario4 :
  sendSlcanFrame (CanFrame 0x123 3 [1; 2; 3; 0; 0; 0; 0; 0])
    (replicate 32 "?"%char) initial_state
  = Some (emit (SerialWriteN (chars "t1233010203" ++ [CR])) initial_state).
Proof. reflexivity. Qed.

Ltac obind := cbn [mbind option_bind].

(** ** Finite checks *)

Lemma below_range (P : Z -> Prop) `{!forall v, Decision (P v)} (n : Z) :
  bool_decide (Forall P (seqZ 0 n)) = true -> forall v, 0 <= v < n -> P v.
Proof.
  intros Hb v Hv. apply bool_decide_eq_true_1 in Hb.
  rewrite Forall_forall in Hb. apply Hb, elem_of_seqZ. lia.
Qed.

Lemma fmt_X_1 v : 0 <= v < 16 -> fmt_X 1 v = hex_field 1 v.
Proof.
  revert v. apply (below_range (fun v => fmt_X 1 v = hex_field 1 v)).
  vm_compute. reflexivity.
Qed.

Lemma fmt_X_2 v : 0 <= v < 256 -> fmt_X 2 v = hex_field 2 v.
Proof.
  revert v. apply (below_range (fun v => fmt_X 2 v = hex_field 2 v)).
  vm_compute. reflexivity.
Qed.

Lemma fmt_X_3 v : 0 <= v < 4096 -> fmt_X 3 v = hex_field 3 v.
Proof.
  revert v. apply (below_range (fun v => fmt_X 3 v = hex_field 3 v)).
  vm_compute. reflexivity.
Qed.

Lemma strtoul_hex_1 v : 0 <= v < 16 -> strtoul16 (hex_field 1 v ++ [NUL]) = v.
Proof.
  revert v.
  apply (below_range (fun v => strtoul16 (hex_field 1 v ++ [NUL]) = v)).
  vm_compute. reflexivity.
Qed.

Lemma strtoul_hex_2 v : 0 <= v < 256 -> strtoul16 (hex_field 2 v ++ [NUL]) = v.
Proof.
  revert v.
  apply (below_range (fun v => strtoul16 (hex_field 2 v ++ [NUL]) = v)).
  vm_compute. reflexivity.
Qed.

Lemma strtoul_hex_3 v : 0 <= v < 4096 -> strtoul16 (hex_field 3 v ++ [NUL]) = v.
Proof.
  revert v.
  apply (below_range (fun v => strtoul16 (hex_field 3 v ++ [NUL]) = v)).
  vm_compute. reflexivity.
Qed.

Lemma length_hex_field w v : length (hex_field w v) = w.
Proof.
  revert v. induction w as [|w IH]; intros v; simpl; [done|].
  rewrite length_app, IH. simpl. lia.
Qed.

(** ** Array writes *)

Lemma u8n_small n : (n < 256)%nat -> u8n n = n.
Proof. intros. unfold u8n. apply Nat.mod_small. done. Qed.

Ltac u8n_norm :=
  repeat match goal with
         | |- context [u8n ?k] => rewrite (u8n_small k) by lia
         end.

Lemma inserts_split {A} (k l : list A) pos :
  (pos + length k <= length l)%nat ->
  list_inserts pos k l = take pos l ++ k ++ drop (pos + length k) l.
Proof.
  intros Hle.
  rewrite <- (take_drop pos l) at 1.
  replace pos with (length (take pos l) + 0)%nat at 1
    by (rewrite length_take; lia).
  rewrite list_inserts_app_r. f_equal.
  rewrite <- (take_drop (length k) (drop pos l)) at 1.
  rewrite list_inserts_0_r, drop_drop; [done|].
  rewrite length_take, length_drop. lia.
Qed.

Lemma store_Some {A} (a : list A) i x :
  (i < length a)%nat ->
  exists a', store a i x = Some a' /\ length a' = length a /\
             take (S i) a' = take i a ++ [x].
Proof.
  intros Hi. exists (<[i:=x]> a). unfold store.
  rewrite decide_True by done. split; [done|].
  rewrite length_insert. split; [done|].
  rewrite (take_S_r _ _ x) by (apply list_lookup_insert_eq; done).
  rewrite take_insert_ge by lia. done.
Qed.

Lemma sprintf_Some out pos s :
  (pos + length s + 1 <= length out)%nat ->
  exists out', sprintf out pos s = Some out' /\ length out' = length out /\
               take (pos + length s) out' = take pos out ++ s.
Proof.
  intros Hle. exists (list_inserts pos (s ++ [NUL]) out). unfold sprintf.
  rewrite decide_True by done. split; [done|].
  rewrite length_inserts. split; [done|].
  rewrite inserts_split by (rewrite length_app; simpl; lia).
  rewrite !app_assoc, <- (app_assoc _ [NUL]).
  rewrite take_app_length'; [done|].
  rewrite length_app, length_take. lia.
Qed.

(** ** The encoder *)

Section Encoder.

#[local] Arguments Nat.add : simpl never.
#[local] Arguments Nat.mul : simpl never.

Variable f : can_frame.
Variable n : nat.
Hypothesis Hdlc : can_dlc f = Z.of_nat n.
Hypothesis Hn : (n <= 8)%nat.
Hypothesis Hlen : length (data f) = 8%nat.
Hypothesis Hbytes : Forall (fun b => 0 <= b < 256) (data f).

Lemma send_payload_spec fuel : forall i out,
  length out = 32%nat -> (i <= n)%nat -> (n - i < fuel)%nat ->
  exists out',
    send_payload fuel f i (5 + 2 * i) out = Some ((5 + 2 * n)%nat, out') /\
    length out' = 32%nat /\
    take (5 + 2 * n) out' =
      take (5 + 2 * i) out ++ concat (map (hex_field 2) (drop i (take n (data f)))).
Proof.
  induction fuel as [|fuel IH]; intros i out Hout Hi Hfuel; [lia|].
  simpl. rewrite Hdlc.
  destruct (Z.ltb_spec (Z.of_nat i) (Z.of_nat n)) as [Hlt|Hge].
  - assert (Hin : (i < n)%nat) by lia.
    destruct (lookup_lt_is_Some_2 (data f) i) as [b Hb]; [lia|].
    assert (Hb256 : 0 <= b < 256).
    { rewrite Forall_forall in Hbytes. apply Hbytes.
      eapply list_elem_of_lookup_2; eauto. }
    rewrite Hb. simpl. rewrite fmt_X_2 by done.
    destruct (sprintf_Some out (5 + 2 * i) (hex_field 2 b))
      as (out1 & Hs & Hlen1 & Htk).
    { rewrite length_hex_field. lia. }
    rewrite Hs. simpl. rewrite !u8n_small by lia.
    replace (5 + 2 * i + 2)%nat with (5 + 2 * (i + 1))%nat by lia.
    destruct (IH (i + 1)%nat out1) as (out' & Hsp & Hlen' & Htk');
      [congruence|lia|lia|].
    exists out'. split; [done|]. split; [done|].
    rewrite Htk'. rewrite length_hex_field in Htk.
    replace (5 + 2 * (i + 1))%nat with (5 + 2 * i + 2)%nat by lia.
    rewrite Htk.
    rewrite (drop_S (take n (data f)) b i)
      by (rewrite lookup_take_lt by done; done).
    replace (i + 1)%nat with (S i) by lia.
    rewrite <- app_assoc. reflexivity.
  - assert (i = n) by lia. subst i.
    exists out. split; [done|]. split; [done|].
    rewrite drop_ge by (rewrite length_take; lia).
    simpl. rewrite app_nil_r. done.
Qed.

Lemma sendSlcanFrame_standard out st :
  Z.land (can_id f) CAN_EFF_FLAG = 0 -> 0 <= can_id f ->
  length out = 32%nat ->
  sendSlcanFrame f out st
  = Some (emit (SerialWriteN (slcan_line f ++ [CR])) st).
Proof.
  intros Hstd Hid Hout. unfold sendSlcanFrame. rewrite Hstd.
  cbn [Z.eqb negb].
  destruct (store_Some out 0 "t"%char) as (o1 & -> & L1 & T1); [lia|].
  obind. u8n_norm.
  assert (Hid3 : 0 <= Z.land (can_id f) 2047 < 4096).
  { split; [apply Z.land_nonneg; lia|].
    change 2047 with (Z.ones 11). rewrite Z.land_ones by lia.
    change (2 ^ 11) with 2048.
    pose proof (Z.mod_pos_bound (can_id f) 2048). lia. }
  assert (Hd1 : 0 <= Z.land (can_dlc f) 15 < 16).
  { split; [apply Z.land_nonneg; lia|].
    change 15 with (Z.ones 4). rewrite Z.land_ones by lia.
    apply Z.mod_pos_bound. done. }
  rewrite fmt_X_3, fmt_X_1 by done.
  destruct (sprintf_Some o1 1 (hex_field 3 (Z.land (can_id f) 2047)))
    as (o2 & Hs2 & L2 & T2); [rewrite length_hex_field; lia|].
  change (0 + 1)%nat with 1%nat. rewrite Hs2. obind.
  u8n_norm.
  destruct (sprintf_Some o2 4 (hex_field 1 (Z.land (can_dlc f) 15)))
    as (o3 & Hs3 & L3 & T3); [rewrite length_hex_field; lia|].
  change (1 + 3)%nat with 4%nat. rewrite Hs3. obind.
  u8n_norm.
  destruct (send_payload_spec 257 0 o3) as (o4 & Hsp & L4 & T4);
    [congruence|lia|lia|].
  change (4 + 1)%nat with (5 + 2 * 0)%nat. rewrite Hsp. obind.
  destruct (store_Some o4 (5 + 2 * n) CR) as (o5 & Hst & L5 & T5); [lia|].
  rewrite Hst. obind. u8n_norm.
  do 3 f_equal.
  replace (5 + 2 * n + 1)%nat with (S (5 + 2 * n)) by lia.
  rewrite T5, T4. rewrite length_hex_field in T2, T3.
  change (5 + 2 * 0)%nat with (4 + 1)%nat. rewrite T3.
  change 4%nat with (1 + 3)%nat. rewrite T2.
  change 1%nat with (S 0). rewrite T1. rewrite take_0, drop_0.
  unfold slcan_line. rewrite Hdlc, Nat2Z.id.
  rewrite <- !app_assoc. reflexivity.
Qed.

End Encoder.

Lemma sendSlcanFrame_extended f out st :
  Z.land (can_id f) CAN_EFF_FLAG <> 0 -> sendSlcanFrame f out st = Some st.
Proof.
  intros Hext. unfold sendSlcanFrame.
  destruct (Z.eqb_spec (Z.land (can_id f) CAN_EFF_FLAG) 0); [done|]. done.
Qed.

(** ** The decoder *)

Section Decoder.

#[local] Arguments Nat.add : simpl never.
#[local] Arguments Nat.mul : simpl never.

Variable cmd : list ascii.
Hypothesis Hcmd : (21 <= length cmd)%nat.

Lemma cmd_lookup i : (i < 21)%nat -> cmd !! i = Some (nth i cmd NUL).
Proof.
  intros Hi. destruct (nth_lookup_or_length cmd i NUL) as [H|H]; [done|lia].
Qed.

Lemma parse_payload_spec fuel : forall i f,
  let m := Z.to_nat (Z.min (can_dlc f) 8) in
  0 <= can_dlc f -> length (data f) = 8%nat ->
  (i <= m)%nat -> (m - i < fuel)%nat ->
  parse_payload fuel cmd i f
  = Some (CanFrame (can_id f) (can_dlc f)
            (take i (data f)
             ++ map (fun j => u8 (strtoul16 (pair_at cmd j))) (seq i (m - i))
             ++ drop m (data f))).
Proof.
  induction fuel as [|fuel IH]; intros i f m Hdlc Hlen Hi Hfuel; [lia|].
  cbn [parse_payload].
  destruct (decide (i < m)%nat) as [Hlt|Hge].
  - assert (Hc : (Z.of_nat i <? can_dlc f) && (Z.of_nat i <? 8) = true).
    { apply andb_true_intro. split; apply Z.ltb_lt; lia. }
    rewrite Hc, !cmd_lookup by lia. obind.
    unfold set_data.
    destruct (store_Some (data f) i (u8 (strtoul16 (pair_at cmd i))))
      as (d & Hst & Hld & Htk); [lia|].
    unfold pair_at in *. rewrite Hst. obind. u8n_norm.
    rewrite IH; cbn [can_id can_dlc data]; [|done|congruence|lia|lia].
    fold m. do 2 f_equal.
    replace (i + 1)%nat with (S i) by lia. rewrite Htk, <- app_assoc.
    f_equal.
    replace (m - i)%nat with (S (m - S i)) by lia. cbn [seq map app].
    do 2 f_equal.
    unfold store in Hst. rewrite decide_True in Hst by lia.
    injection Hst as <-. rewrite drop_insert_lt by lia. done.
  - assert (i = m) by lia. subst i.
    assert (Hc : (Z.of_nat m <? can_dlc f) && (Z.of_nat m <? 8) = false).
    { apply andb_false_iff.
      destruct (Z.le_ge_cases (can_dlc f) 8);
        [left|right]; apply Z.ltb_ge; lia. }
    rewrite Hc, Nat.sub_diag. cbn [seq map app].
    rewrite take_drop. by destruct f.
Qed.

Lemma parse_transmit_spec tx0 st :
  length (data tx0) = 8%nat ->
  parse_transmit cmd tx0 st
  = Some (emit (SendMessage (decoded_frame cmd tx0)) st).
Proof.
  intros Hlen. unfold parse_transmit.
  rewrite !cmd_lookup by lia. obind.
  assert (Hu : 0 <= u8 (strtoul16 [nth 4 cmd NUL; NUL]) < 256)
    by (apply Z.mod_pos_bound; lia).
  rewrite parse_payload_spec; cbn [can_id can_dlc data set_can_id set_can_dlc];
    [|lia|done|lia|lia].
  obind. rewrite take_0, Nat.sub_0_r. reflexivity.
Qed.

(** The dispatcher as a function of the first character. *)
Lemma parseSlcan_spec tx0 st :
  length (data tx0) = 8%nat ->
  parseSlcan cmd tx0 st = Some (dispatched cmd tx0 st).
Proof.
  intros Hlen. unfold parseSlcan, dispatched.
  rewrite cmd_lookup by lia. obind.
  cbv zeta. unfold is_transmit.
  destruct (nth 0 cmd NUL =? "O")%char; [done|].
  destruct (nth 0 cmd NUL =? "C")%char; [done|].
  destruct ((nth 0 cmd NUL =? "T")%char || (nth 0 cmd NUL =? "t")%char);
    [|done].
  rewrite parse_transmit_spec by done. done.
Qed.

End Decoder.

(** ** A line of the encoder in the receive buffer *)

Lemma land_small v k : 0 <= v < 2 ^ k -> 0 <= k -> Z.land v (Z.ones k) = v.
Proof. intros Hv Hk. rewrite Z.land_ones by done. apply Z.mod_small. done. Qed.

Lemma length_payload_chars (bs : list Z) :
  length (concat (map (hex_field 2) bs)) = (2 * length bs)%nat.
Proof.
  induction bs as [|b bs IH]; [done|].
  cbn [map concat]. rewrite length_app, IH, length_hex_field.
  cbn [length]. lia.
Qed.

Lemma payload_chars_lookup (bs : list Z) : forall j b,
  bs !! j = Some b ->
  concat (map (hex_field 2) bs) !! (2 * j)%nat
    = Some (hex_char (b / 16 mod 16)) /\
  concat (map (hex_field 2) bs) !! (2 * j + 1)%nat = Some (hex_char (b mod 16)).
Proof.
  induction bs as [|b0 bs IH]; intros j b Hj; [done|].
  destruct j as [|j].
  - injection Hj as ->. done.
  - replace (2 * S j)%nat with (S (S (2 * j))) by lia.
    replace (S (S (2 * j)) + 1)%nat with (S (S (2 * j + 1))) by lia.
    cbn. apply IH. done.
Qed.

Lemma length_buffer_of line rest : length (buffer_of line rest) = 32%nat.
Proof.
  unfold buffer_of, SLCAN_BUF_SIZE.
  rewrite length_take, length_app. cbn [length].
  rewrite length_app, length_replicate. lia.
Qed.

Lemma nth_buffer_of line rest i c :
  (i < 32)%nat -> line !! i = Some c -> nth i (buffer_of line rest) NUL = c.
Proof.
  intros Hi Hc. apply nth_lookup_Some. unfold buffer_of, SLCAN_BUF_SIZE.
  rewrite lookup_take_lt by done. apply lookup_app_l_Some. done.
Qed.

Lemma length_slcan_line f :
  (length (slcan_line f) <= 5 + 2 * Z.to_nat (can_dlc f))%nat.
Proof.
  unfold slcan_line. cbn [length]. rewrite !length_app, !length_hex_field.
  rewrite length_payload_chars, length_take. lia.
Qed.

Lemma line_first f rest : nth 0 (buffer_of (slcan_line f) rest) NUL = "t"%char.
Proof. apply nth_buffer_of; [lia|done]. Qed.

Lemma buffer_holds_line f rest i c :
  can_dlc f <= 8 -> slcan_line f !! i = Some c ->
  nth i (buffer_of (slcan_line f) rest) NUL = c.
Proof.
  intros Hle Hc. apply nth_buffer_of; [|done].
  pose proof (length_slcan_line f). apply lookup_lt_Some in Hc. lia.
Qed.

Section Line.

Variable f : can_frame.
Variable n : nat.
Hypothesis Hid : 0 <= can_id f <= 0x7FF.
Hypothesis Hdlc : can_dlc f = Z.of_nat n.
Hypothesis Hn : (n <= 8)%nat.
Hypothesis Hlen : length (data f) = 8%nat.
Hypothesis Hbytes : Forall (fun b => 0 <= b < 256) (data f).

(** A buffer that holds the line from its second character on. *)
Variable cmd : list ascii.
Hypothesis Hheld : forall i c,
  (1 <= i)%nat -> slcan_line f !! i = Some c -> nth i cmd NUL = c.

Lemma slcan_line_split :
  slcan_line f =
  ("t"%char :: hex_field 3 (can_id f) ++ hex_field 1 (can_dlc f))
  ++ concat (map (hex_field 2) (take n (data f))).
Proof.
  unfold slcan_line. rewrite Hdlc, Nat2Z.id.
  change 2047 with (Z.ones 11). change 15 with (Z.ones 4).
  rewrite !land_small by (try change (2 ^ 11) with 2048;
                          try change (2 ^ 4) with 16; lia).
  cbn [app]. rewrite <- app_assoc. done.
Qed.

Lemma line_id_field : id_field cmd = hex_field 3 (can_id f) ++ [NUL].
Proof.
  unfold id_field.
  rewrite (Hheld 1 (hex_char (can_id f / 16 / 16 mod 16))),
          (Hheld 2 (hex_char (can_id f / 16 mod 16))),
          (Hheld 3 (hex_char (can_id f mod 16)));
    try lia; try (rewrite slcan_line_split; done).
  done.
Qed.

Lemma line_dlc_field : dlc_field cmd = hex_field 1 (can_dlc f) ++ [NUL].
Proof.
  unfold dlc_field.
  rewrite (Hheld 4 (hex_char (can_dlc f mod 16)));
    try lia; try (rewrite slcan_line_split; done).
  done.
Qed.

Lemma line_pair_at j b :
  (j < n)%nat -> data f !! j = Some b ->
  pair_at cmd j = hex_field 2 b ++ [NUL].
Proof.
  intros Hj Hb. unfold pair_at.
  assert (Hb' : take n (data f) !! j = Some b)
    by (rewrite lookup_take_lt by done; done).
  destruct (payload_chars_lookup _ _ _ Hb') as [H0 H1].
  rewrite (Hheld (5 + 2 * j) (hex_char (b / 16 mod 16))),
          (Hheld (5 + 2 * j + 1) (hex_char (b mod 16)));
    try lia.
  - done.
  - rewrite slcan_line_split, lookup_app_r by (cbn; lia).
    cbn [length hex_field app]. rewrite <- H1. f_equal. lia.
  - rewrite slcan_line_split, lookup_app_r by (cbn; lia).
    cbn [length hex_field app]. rewrite <- H0. f_equal. lia.
Qed.

Lemma line_decoded tx0 :
  length (data tx0) = 8%nat ->
  decoded_frame cmd tx0
  = CanFrame (can_id f) (can_dlc f) (take n (data f) ++ drop n (data tx0)).
Proof.
  intros Htx. unfold decoded_frame.
  rewrite line_id_field, line_dlc_field.
  rewrite strtoul_hex_3, strtoul_hex_1 by lia.
  assert (Hu : u8 (can_dlc f) = can_dlc f) by (apply Z.mod_small; lia).
  rewrite Hu, Z.min_l by lia.
  rewrite (Z.mod_small (can_id f)) by (change (2 ^ 32) with 4294967296; lia).
  replace (Z.to_nat (can_dlc f)) with n by lia.
  do 2 f_equal. unfold payload_of.
  apply list_eq. intros j. rewrite list_lookup_fmap.
  destruct (decide (j < n)%nat) as [Hj|Hj].
  - rewrite lookup_seq_lt, lookup_take_lt by done.
    cbn [fmap option_fmap option_map Nat.add].
    destruct (lookup_lt_is_Some_2 (data f) j) as [b Hb]; [lia|].
    assert (Hb256 : 0 <= b < 256).
    { rewrite Forall_forall in Hbytes. apply Hbytes.
      eapply list_elem_of_lookup_2; eauto. }
    rewrite Hb, (line_pair_at j b), strtoul_hex_2 by done.
    unfold u8. rewrite Z.mod_small; done.
  - rewrite lookup_seq_ge, lookup_take_ge by lia. done.
Qed.

End Line.

(** ** Traces *)

Lemma serial_bytes_app tr1 tr2 :
  serial_bytes (tr1 ++ tr2) = serial_bytes tr1 ++ serial_bytes tr2.
Proof. unfold serial_bytes. rewrite map_app, concat_app. done. Qed.

Lemma sent_frames_app tr1 tr2 :
  sent_frames (tr1 ++ tr2) = sent_frames tr1 ++ sent_frames tr2.
Proof. apply omap_app. Qed.

Lemma forwarded_app tr1 tr2 :
  forwarded (tr1 ++ tr2) = forwarded tr1 ++ forwarded tr2.
Proof. apply omap_app. Qed.

(** ** The dispatcher's effect on each part of the state *)

Lemma dispatched_canOpen cmd tx0 st :
  canOpen (dispatched cmd tx0 st) =
  if (nth 0 cmd NUL =? "O")%char then true
  else if (nth 0 cmd NUL =? "C")%char then false
  else canOpen st.
Proof.
  unfold dispatched. cbv zeta.
  destruct (nth 0 cmd NUL =? "O")%char; [done|].
  destruct (nth 0 cmd NUL =? "C")%char; [done|].
  destruct (is_transmit (nth 0 cmd NUL)); done.
Qed.

Lemma dispatched_globals cmd tx0 st :
  rxFrame (dispatched cmd tx0 st) = rxFrame st /\
  slcanBuf (dispatched cmd tx0 st) = slcanBuf st /\
  slcanLen (dispatched cmd tx0 st) = slcanLen st.
Proof.
  unfold dispatched. cbv zeta.
  destruct (nth 0 cmd NUL =? "O")%char; [done|].
  destruct (nth 0 cmd NUL =? "C")%char; [done|].
  destruct (is_transmit (nth 0 cmd NUL)); done.
Qed.

Lemma dispatched_forwarded cmd tx0 st :
  forwarded (trace (dispatched cmd tx0 st)) = forwarded (trace st).
Proof.
  unfold dispatched. cbv zeta.
  destruct (nth 0 cmd NUL =? "O")%char;
    [|destruct (nth 0 cmd NUL =? "C")%char;
      [|destruct (is_transmit (nth 0 cmd NUL))]];
    cbn [trace emit set_canOpen]; rewrite ?forwarded_app;
    cbn; rewrite ?app_nil_r; done.
Qed.

(** ** One iteration *)

Section Iteration.

Variable e : env.
Variable st : state.
Hypothesis Hst : state_wf st.
Hypothesis Htx : length (data (txFrame0 e)) = 8%nat.

Lemma loop_serial_spec :
  loop_serial e st = Some
    match serial_in e with
    | Some c =>
        if is_terminator c then
          if decide (0 < slcanLen st)%nat then
            set_slcanLen 0
              (dispatched (terminated st) (txFrame0 e)
                 (set_slcanBuf (terminated st) st))
          else st
        else
          if decide (slcanLen st + 1 < SLCAN_BUF_SIZE)%nat then
            set_slcanLen (slcanLen st + 1)
              (set_slcanBuf (<[slcanLen st := toupper c]> (slcanBuf st)) st)
          else st
    | None => st
    end.
Proof.
  destruct Hst as [Hlen Hpos]. unfold SLCAN_BUF_SIZE in *.
  unfold loop_serial, store, terminated.
  destruct (serial_in e) as [c|]; [|done].
  destruct (is_terminator c).
  - destruct (decide (0 < slcanLen st)%nat); [|done].
    rewrite decide_True by lia. obind.
    cbn [slcanBuf set_slcanBuf].
    rewrite parseSlcan_spec by (rewrite ?length_insert; lia || done).
    done.
  - destruct (decide (slcanLen st + 1 < SLCAN_BUF_SIZE)%nat) as [Hc|Hc];
      unfold SLCAN_BUF_SIZE in *.
    + rewrite decide_True by lia. rewrite decide_True by lia. obind.
      rewrite u8n_small by lia. done.
    + rewrite decide_False by lia. done.
Qed.

Lemma loop_serial_total :
  exists st1,
    loop_serial e st = Some st1 /\ state_wf st1 /\
    rxFrame st1 = rxFrame st /\
    forwarded (trace st1) = forwarded (trace st) /\
    canOpen st1 =
      (if completes "O" e st then true
       else if completes "C" e st then false
       else canOpen st).
Proof.
  eexists. split; [apply loop_serial_spec|].
  destruct Hst as [Hlen Hpos]. unfold SLCAN_BUF_SIZE in *.
  unfold completes, state_wf, SLCAN_BUF_SIZE.
  destruct (serial_in e) as [c|]; [|done].
  destruct (is_terminator c); cbn [andb].
  - destruct (decide (0 < slcanLen st)%nat) as [Hp|Hp].
    + rewrite bool_decide_eq_true_2 by done. cbn [andb].
      pose proof (dispatched_globals (terminated st) (txFrame0 e)
                    (set_slcanBuf (terminated st) st)) as (Hr & Hb & _).
      cbn [rxFrame slcanBuf slcanLen canOpen trace set_slcanLen].
      rewrite Hr, Hb, dispatched_forwarded, dispatched_canOpen.
      cbn [rxFrame slcanBuf slcanLen canOpen trace set_slcanBuf].
      unfold terminated. rewrite length_insert.
      assert (Hn0 : nth 0 (<[slcanLen st:=NUL]> (slcanBuf st)) NUL
                    = nth 0 (slcanBuf st) NUL).
      { rewrite !nth_lookup, list_lookup_insert_ne by lia. done. }
      rewrite Hn0. repeat split; try done; lia.
    + rewrite bool_decide_eq_false_2 by done. done.
  - destruct (decide (slcanLen st + 1 < 32)%nat); [|done].
    cbn. rewrite length_insert. repeat split; try done; lia.
Qed.

End Iteration.

Lemma sendSlcanFrame_total f out st :
  frame_wf f -> can_dlc f <= 8 -> length out = 32%nat ->
  sendSlcanFrame f out st = Some
    (if Z.land (can_id f) CAN_EFF_FLAG =? 0
     then emit (SerialWriteN (slcan_line f ++ [CR])) st else st).
Proof.
  intros (Hid & Hdlc & Hlen & Hbytes) Hle Hout.
  destruct (Z.eqb_spec (Z.land (can_id f) CAN_EFF_FLAG) 0) as [Hs|Hx].
  - apply (sendSlcanFrame_standard f (Z.to_nat (can_dlc f)));
      try done; try lia.
  - apply sendSlcanFrame_extended. exact Hx.
Qed.

Lemma loop_can_total e st :
  state_wf st -> env_wf e ->
  exists st2,
    loop_can e st = Some st2 /\ state_wf st2 /\ canOpen st2 = canOpen st /\
    forwarded (trace st2) =
      forwarded (trace st) ++ (if canOpen st then forwarded_line e else []).
Proof.
  intros Hst (Hout & _ & Hrx). unfold loop_can, forwarded_line.
  destruct (canOpen st) eqn:Ho; [|exists st; rewrite app_nil_r; done].
  destruct (can_rx e) as [f|]; [|exists st; rewrite app_nil_r; done].
  destruct (Hrx f eq_refl) as [Hf Hle].
  rewrite sendSlcanFrame_total by done.
  eexists. split; [done|].
  destruct (Z.land (can_id f) CAN_EFF_FLAG =? 0).
  - split; [exact Hst|]. split; [exact Ho|].
    cbn [trace emit set_rxFrame]. rewrite forwarded_app. done.
  - split; [exact Hst|]. split; [exact Ho|].
    cbn [trace set_rxFrame]. rewrite app_nil_r. done.
Qed.

Lemma loop_total e st :
  state_wf st -> env_wf e ->
  exists st',
    loop e st = Some st' /\ state_wf st' /\
    canOpen st' =
      (if completes "O" e st then true
       else if completes "C" e st then false
       else canOpen st) /\
    forwarded (trace st') =
      forwarded (trace st) ++ (if canOpen st' then forwarded_line e else []).
Proof.
  intros Hst He.
  destruct (loop_serial_total e st Hst (proj1 (proj2 He)))
    as (st1 & H1 & Hw1 & _ & Hf1 & Ho1).
  destruct (loop_can_total e st1 Hw1 He) as (st2 & H2 & Hw2 & Ho2 & Hf2).
  exists st2. unfold loop. rewrite H1. obind.
  rewrite Ho2, Hf2, Hf1, Ho1. done.
Qed.

(** ** Small facts used by the main results *)

Lemma standard_id_has_no_eff_flag v :
  0 <= v <= 0x7FF -> Z.land v CAN_EFF_FLAG = 0.
Proof.
  intros Hv. rewrite <- (land_small v 11) by (change (2 ^ 11) with 2048; lia).
  rewrite <- Z.land_assoc. change (Z.land (Z.ones 11) CAN_EFF_FLAG) with 0.
  apply Z.land_0_r.
Qed.

Lemma hex_char_upper d : hex_char d ∈ hex_upper.
Proof.
  unfold hex_char.
  destruct (nth_in_or_default (Z.to_nat d) hex_upper "0"%char) as [Hin | ->].
  - apply list_elem_of_In. done.
  - apply list_elem_of_In. cbn. tauto.
Qed.

Lemma hex_field_upper w : forall v, Forall (fun c => c ∈ hex_upper) (hex_field w v).
Proof.
  induction w as [|w IH]; intros v; cbn [hex_field]; [constructor|].
  apply Forall_app. split; [apply IH|].
  constructor; [apply hex_char_upper|constructor].
Qed.

Lemma dispatched_known cmd tx0 st :
  is_known (nth 0 cmd NUL) = true ->
  serial_bytes (trace (dispatched cmd tx0 st))
  = serial_bytes (trace st) ++ [CR].
Proof.
  unfold is_known, dispatched. cbv zeta. intros Hk.
  destruct (nth 0 cmd NUL =? "O")%char;
    [|destruct (nth 0 cmd NUL =? "C")%char;
      [|destruct (is_transmit (nth 0 cmd NUL)); [|done]]];
    cbn [trace emit set_canOpen]; rewrite !serial_bytes_app;
    cbn; rewrite ?app_nil_r; done.
Qed.

Lemma dispatched_unknown cmd tx0 st :
  is_known (nth 0 cmd NUL) = false ->
  dispatched cmd tx0 st = emit (SerialWrite1 BEL) st.
Proof.
  unfold is_known, dispatched. cbv zeta. intros Hk.
  destruct (nth 0 cmd NUL =? "O")%char; [done|].
  destruct (nth 0 cmd NUL =? "C")%char; [done|].
  destruct (is_transmit (nth 0 cmd NUL)); done.
Qed.

Lemma dispatched_transmit cmd tx0 st :
  is_transmit (nth 0 cmd NUL) = true ->
  dispatched cmd tx0 st
  = emit (SerialWrite1 CR) (emit (SendMessage (decoded_frame cmd tx0)) st).
Proof.
  unfold dispatched, is_transmit. cbv zeta. intros Ht.
  destruct (nth 0 cmd NUL) as [[] [] [] [] [] [] [] []]; done.
Qed.

(** Closed side conditions on concrete frames, buffers and states. *)
Ltac closed_wf :=
  unfold state_wf, env_wf, frame_wf, SLCAN_BUF_SIZE; cbn;
  repeat match goal with
         | |- _ /\ _ => split
         | |- Forall _ _ => constructor
         | |- forall _, _ => intros
         | H : Some _ = Some _ |- _ => injection H as <-
         | H : None = Some _ |- _ => discriminate H
         end; cbn; try done; try lia.

(** * Main results *)

(** C1 — Round trip.  A frame with an 11-bit identifier and at most eight
    data bytes, written by [sendSlcanFrame] and read back by the transmit
    case of [parseSlcan] from the receive buffer, is handed to the controller
    with the same identifier, the same length and the same payload bytes. *)
Theorem C1_roundtrip (f : can_frame) (out rest : list ascii)
    (tx0 : can_frame) (st st' : state) :
  frame_wf f -> can_id f <= 0x7FF -> can_dlc f <= 8 ->
  length out = 32%nat -> length (data tx0) = 8%nat ->
  exists line f',
    sendSlcanFrame f out st = Some (emit (SerialWriteN (line ++ [CR])) st) /\
    parseSlcan (buffer_of line rest) tx0 st'
      = Some (emit (SerialWrite1 CR) (emit (SendMessage f') st')) /\
    can_id f' = can_id f /\ can_dlc f' = can_dlc f /\
    take (Z.to_nat (can_dlc f)) (data f')
      = take (Z.to_nat (can_dlc f)) (data f).
Proof.
  intros (Hid & Hdlc & Hlen & Hbytes) Hid11 Hle Hout Htx.
  set (n := Z.to_nat (can_dlc f)).
  assert (Hn : can_dlc f = Z.of_nat n) by lia.
  exists (slcan_line f), (decoded_frame (buffer_of (slcan_line f) rest) tx0).
  split.
  { apply (sendSlcanFrame_standard f n); try done; try lia.
    apply standard_id_has_no_eff_flag. lia. }
  split.
  { rewrite parseSlcan_spec by (rewrite ?length_buffer_of; lia || done).
    rewrite dispatched_transmit; [done|].
    rewrite line_first. done. }
  rewrite (line_decoded f n);
    [|lia|done|lia|done|done
     |intros i c _; apply buffer_holds_line; done|done].
  cbn [can_id can_dlc data]. split; [done|]. split; [done|].
  rewrite take_app_length'; [done|]. rewrite length_take. lia.
Qed.

Lemma C1_roundtrip_witness :
  let f := CanFrame 0x123 3 [1; 2; 3; 0; 0; 0; 0; 0] in
  exists line f',
    sendSlcanFrame f (replicate 32 "?"%char) initial_state
      = Some (emit (SerialWriteN (line ++ [CR])) initial_state) /\
    parseSlcan (buffer_of line (chars "stale")) frame0 initial_state
      = Some (emit (SerialWrite1 CR) (emit (SendMessage f') initial_state)) /\
    can_id f' = can_id f /\ can_dlc f' = can_dlc f /\
    take (Z.to_nat (can_dlc f)) (data f')
      = take (Z.to_nat (can_dlc f)) (data f).
Proof.
  apply (C1_roundtrip (CanFrame 0x123 3 [1; 2; 3; 0; 0; 0; 0; 0]));
    closed_wf.
Defined.

(** C6 — Encoder format.  For a frame without the extended-identifier flag
    and with at most eight data bytes, [sendSlcanFrame] writes exactly
    't', three upper-case hex digits of [can_id & 0x7FF], one of
    [can_dlc & 0x0F], two per payload byte and a carriage return; for a frame
    with the flag it writes nothing. *)
Theorem C6_encoder_format (f : can_frame) (out : list ascii) (st : state) :
  frame_wf f -> length out = 32%nat ->
  (Z.land (can_id f) CAN_EFF_FLAG = 0 -> can_dlc f <= 8 ->
     sendSlcanFrame f out st =
       Some (emit (SerialWriteN
         ("t"%char :: hex_field 3 (Z.land (can_id f) 0x7FF)
          ++ hex_field 1 (Z.land (can_dlc f) 0x0F)
          ++ concat (map (hex_field 2) (take (Z.to_nat (can_dlc f)) (data f)))
          ++ [CR])) st)) /\
  (forall w v, length (hex_field w v) = w /\
               Forall (fun c => c ∈ chars "0123456789ABCDEF") (hex_field w v)) /\
  (Z.land (can_id f) CAN_EFF_FLAG <> 0 -> sendSlcanFrame f out st = Some st).
Proof.
  intros Hf Hout. split; [|split].
  - intros Hstd Hle. rewrite sendSlcanFrame_total by done.
    rewrite Hstd. cbn [Z.eqb]. unfold slcan_line.
    cbn [app]. rewrite <- !app_assoc. done.
  - intros w v. split; [apply length_hex_field|apply hex_field_upper].
  - apply sendSlcanFrame_extended.
Qed.

Lemma C6_encoder_format_witness :
  sendSlcanFrame (CanFrame 0x123 3 [1; 2; 3; 0; 0; 0; 0; 0])
    (replicate 32 "?"%char) initial_state
  = Some (emit (SerialWriteN (chars "t1233010203" ++ [CR])) initial_state).
Proof.
  refine (proj1 (C6_encoder_format (CanFrame 0x123 3 [1; 2; 3; 0; 0; 0; 0; 0])
                   (replicate 32 "?"%char) initial_state _ _) _ _);
    closed_wf.
Defined.

(** C3 — Acknowledgment.  For every command line in the receive buffer,
    [parseSlcan] writes exactly one carriage return when the first character
    is 'O', 'C', 't' or 'T'; otherwise it writes exactly one bell byte and no
    carriage return, leaves [canOpen] as it was and sends no frame. *)
Theorem C3_acknowledgment (cmd : list ascii) (tx0 : can_frame) (st : state) :
  length cmd = 32%nat -> length (data tx0) = 8%nat ->
  exists st',
    parseSlcan cmd tx0 st = Some st' /\
    (is_known (nth 0 cmd NUL) = true ->
       serial_bytes (trace st') = serial_bytes (trace st) ++ [CR]) /\
    (is_known (nth 0 cmd NUL) = false ->
       trace st' = trace st ++ [SerialWrite1 BEL] /\
       serial_bytes (trace st') = serial_bytes (trace st) ++ [BEL] /\
       sent_frames (trace st') = sent_frames (trace st) /\
       canOpen st' = canOpen st).
Proof.
  intros Hcmd Htx. exists (dispatched cmd tx0 st).
  split; [apply parseSlcan_spec; lia || done|].
  split; [apply dispatched_known|].
  intros Hk. rewrite dispatched_unknown by done.
  cbn [trace emit canOpen].
  rewrite serial_bytes_app, sent_frames_app. cbn. rewrite app_nil_r. done.
Qed.

Lemma C3_acknowledgment_witness :
  exists st',
    parseSlcan (buffer_of (chars "Z") []) frame0 initial_state = Some st' /\
    trace st' = [SerialWrite1 BEL] /\ canOpen st' = true.
Proof.
  destruct (C3_acknowledgment (buffer_of (chars "Z") []) frame0 initial_state)
    as (st' & Hp & _ & Hz); [reflexivity|reflexivity|].
  exists st'. split; [exact Hp|].
  destruct (Hz eq_refl) as (Ht & _ & _ & Ho). split; [exact Ht|exact Ho].
Defined.

(** C5 — Transmission is not gated.  A transmit line makes [parseSlcan]
    call the controller's send operation with the decoded frame whether
    [canOpen] is true or false. *)
Theorem C5_transmit_not_gated (cmd : list ascii) (tx0 : can_frame)
    (st : state) (open : bool) :
  length cmd = 32%nat -> length (data tx0) = 8%nat ->
  is_transmit (nth 0 cmd NUL) = true ->
  exists st',
    parseSlcan cmd tx0 (set_canOpen open st) = Some st' /\
    trace st' = trace st ++ [SendMessage (decoded_frame cmd tx0);
                             SerialWrite1 CR] /\
    sent_frames (trace st')
      = sent_frames (trace st) ++ [decoded_frame cmd tx0] /\
    canOpen st' = open.
Proof.
  intros Hcmd Htx Ht. eexists.
  split; [apply parseSlcan_spec; lia || done|].
  rewrite dispatched_transmit by done.
  cbn [trace emit canOpen set_canOpen].
  rewrite <- app_assoc, sent_frames_app. cbn. done.
Qed.

Lemma C5_transmit_not_gated_witness :
  exists st',
    parseSlcan (buffer_of (chars "t0032AABB") []) frame0
      (set_canOpen false initial_state) = Some st' /\
    sent_frames (trace st') = [CanFrame 3 2 [0xAA; 0xBB; 0; 0; 0; 0; 0; 0]] /\
    canOpen st' = false.
Proof.
  destruct (C5_transmit_not_gated (buffer_of (chars "t0032AABB") []) frame0
              initial_state false) as (st' & Hp & _ & Hs & Ho);
    [reflexivity|reflexivity|reflexivity|].
  exists st'. split; [exact Hp|]. split; [exact Hs|exact Ho].
Defined.

Lemma chr_code c : chr (code c) = c.
Proof. unfold chr, code. rewrite N2Z.id. apply ascii_N_embedding. Qed.

Lemma code_range c : 0 <= code c < 256.
Proof.
  unfold code. pose proof (N_ascii_bounded c).
  change 256 with (Z.of_N 256). lia.
Qed.

(** One character and its terminator never decode to more than 15. *)
Lemma strtoul_one_char c : 0 <= strtoul16 [c; NUL] <= 15.
Proof.
  rewrite <- (chr_code c). generalize (code_range c). generalize (code c).
  apply (below_range (fun v => 0 <= strtoul16 [chr v; NUL] <= 15)).
  vm_compute. reflexivity.
Qed.

Lemma declared_length_range cmd : 0 <= declared_length cmd <= 15.
Proof.
  unfold declared_length, dlc_field, u8.
  pose proof (strtoul_one_char (nth 4 cmd NUL)).
  rewrite Z.mod_small; lia.
Qed.

Lemma nth_take_eq (l l' : list ascii) k i :
  take k l' = take k l -> (i < k)%nat -> nth i l' NUL = nth i l NUL.
Proof.
  intros Htk Hi. rewrite !nth_lookup.
  rewrite <- (lookup_take_lt l' k i), <- (lookup_take_lt l k i) by done.
  rewrite Htk. done.
Qed.

Lemma length_payload_of cmd m : length (payload_of cmd m) = m.
Proof. unfold payload_of. rewrite length_map, length_seq. done. Qed.

(** The decoded frame depends on the first [5 + 2 * min(dlc, 8)] characters
    of the buffer only. *)
Lemma decoded_frame_prefix cmd cmd' tx0 :
  let m := Z.to_nat (Z.min (declared_length cmd) 8) in
  take (5 + 2 * m) cmd' = take (5 + 2 * m) cmd ->
  decoded_frame cmd' tx0 = decoded_frame cmd tx0.
Proof.
  intros m Htk. unfold decoded_frame.
  assert (Hd : dlc_field cmd' = dlc_field cmd).
  { unfold dlc_field. rewrite (nth_take_eq cmd cmd' _ 4 Htk) by lia. done. }
  assert (Hi : id_field cmd' = id_field cmd).
  { unfold id_field.
    rewrite (nth_take_eq cmd cmd' _ 1 Htk), (nth_take_eq cmd cmd' _ 2 Htk),
            (nth_take_eq cmd cmd' _ 3 Htk) by lia. done. }
  rewrite Hd, Hi. cbv zeta. fold (declared_length cmd). fold m.
  do 2 f_equal. unfold payload_of. apply map_ext_in.
  intros j Hj. apply in_seq in Hj. unfold pair_at.
  rewrite (nth_take_eq cmd cmd' _ (5 + 2 * j) Htk),
          (nth_take_eq cmd cmd' _ (5 + 2 * j + 1) Htk) by lia.
  done.
Qed.

(** C7 — Payload cap.  A transmit line makes [parseSlcan] decode exactly
    [min (declared length, 8)] byte pairs from offset 5 on into the first
    slots of the eight-byte payload and nothing else: the other slots keep
    what they held, characters after the last decoded pair are not looked at,
    and a declared length of 9 to 15 is stored as it is. *)
Theorem C7_payload_cap (cmd : list ascii) (tx0 : can_frame) (st : state) :
  length cmd = 32%nat -> length (data tx0) = 8%nat ->
  is_transmit (nth 0 cmd NUL) = true ->
  let m := Z.to_nat (Z.min (declared_length cmd) 8) in
  exists f,
    parseSlcan cmd tx0 st
      = Some (emit (SerialWrite1 CR) (emit (SendMessage f) st)) /\
    0 <= declared_length cmd <= 15 /\
    can_dlc f = declared_length cmd /\
    data f = payload_of cmd m ++ drop m (data tx0) /\
    length (payload_of cmd m) = m /\ (m <= 8)%nat /\
    length (data f) = 8%nat /\
    (forall cmd', length cmd' = 32%nat ->
       take (5 + 2 * m) cmd' = take (5 + 2 * m) cmd ->
       parseSlcan cmd' tx0 st = parseSlcan cmd tx0 st).
Proof.
  intros Hcmd Htx Ht m. exists (decoded_frame cmd tx0).
  pose proof (declared_length_range cmd) as Hr.
  split.
  { rewrite parseSlcan_spec by (lia || done).
    rewrite dispatched_transmit by done. done. }
  split; [done|]. split; [done|]. split; [done|].
  split; [apply length_payload_of|]. split; [lia|].
  split.
  { cbn [data decoded_frame]. fold (declared_length cmd). fold m.
    rewrite length_app, length_payload_of, length_drop. lia. }
  intros cmd' Hcmd' Htk.
  rewrite !parseSlcan_spec by (lia || done).
  rewrite (dispatched_transmit cmd) by done.
  rewrite (dispatched_transmit cmd')
    by (rewrite (nth_take_eq cmd cmd' _ 0 Htk) by lia; done).
  rewrite (decoded_frame_prefix cmd cmd' tx0 Htk). done.
Qed.

Lemma C7_payload_cap_witness :
  exists f,
    parseSlcan (buffer_of (chars "tABCF00112233445566778899AABB") []) frame0
      initial_state
      = Some (emit (SerialWrite1 CR) (emit (SendMessage f) initial_state)) /\
    can_dlc f = 15 /\
    data f = [0x00; 0x11; 0x22; 0x33; 0x44; 0x55; 0x66; 0x77].
Proof.
  destruct (C7_payload_cap
              (buffer_of (chars "tABCF00112233445566778899AABB") [])
              frame0 initial_state)
    as (f & Hp & _ & Hd & Hdata & _); [reflexivity|reflexivity|reflexivity|].
  exists f. split; [exact Hp|]. split; [exact Hd|exact Hdata].
Defined.

(** C8 — Repeated terminators.  A CR or LF that arrives while the buffer is
    empty changes nothing and dispatches nothing; so of two terminators in a
    row, whichever they are, the second never dispatches: the state after the
    first is the state after both. *)
Theorem C8_terminator_idempotent (e1 e2 : env) (st : state) (c1 c2 : ascii) :
  state_wf st -> length (data (txFrame0 e1)) = 8%nat ->
  serial_in e1 = Some c1 -> is_terminator c1 = true ->
  serial_in e2 = Some c2 -> is_terminator c2 = true ->
  (slcanLen st = 0%nat -> loop_serial e1 st = Some st) /\
  exists st1,
    loop_serial e1 st = Some st1 /\ slcanLen st1 = 0%nat /\
    loop_serial e2 st1 = Some st1.
Proof.
  intros Hst Htx H1 Ht1 H2 Ht2.
  assert (Hempty : forall e c s, serial_in e = Some c -> is_terminator c = true ->
                     slcanLen s = 0%nat -> loop_serial e s = Some s).
  { intros e c s He Hc Hs. unfold loop_serial. rewrite He, Hc, Hs. done. }
  split; [apply (Hempty e1 c1); done|].
  eexists. split; [apply loop_serial_spec; done|].
  rewrite H1, Ht1.
  destruct (decide (0 < slcanLen st)%nat) as [Hp|Hp].
  - split; [done|]. apply (Hempty e2 c2); done.
  - split; [lia|]. apply (Hempty e2 c2); [done|done|lia].
Qed.

Lemma C8_terminator_idempotent_witness :
  let st := State frame0 (buffer_of (chars "O") []) 1 false [] in
  exists st1,
    loop_serial (byte_env CR) st = Some st1 /\ slcanLen st1 = 0%nat /\
    loop_serial (byte_env LF) st1 = Some st1.
Proof.
  refine (proj2 (C8_terminator_idempotent (byte_env CR) (byte_env LF)
                   (State frame0 (buffer_of (chars "O") []) 1 false [])
                   CR LF _ _ _ _ _ _)); closed_wf.
Defined.

(** C9 — Bus-state flag.  [canOpen] is true at start.  [parseSlcan] sets it
    to true on a line that starts with 'O', to false on one that starts with
    'C', and leaves it alone on every other line; an iteration of [loop]
    changes it in no other way, so not on a byte that completes no line and
    not when a frame is polled. *)
Theorem C9_bus_state_flag (e : env) (st : state) :
  state_wf st -> env_wf e ->
  canOpen initial_state = true /\
  (forall cmd, length cmd = 32%nat ->
     exists st', parseSlcan cmd (txFrame0 e) st = Some st' /\
       canOpen st' =
         (if (nth 0 cmd NUL =? "O")%char then true
          else if (nth 0 cmd NUL =? "C")%char then false
          else canOpen st)) /\
  (exists st', loop e st = Some st' /\
     canOpen st' =
       (if completes "O" e st then true
        else if completes "C" e st then false
        else canOpen st)) /\
  (completes_line e st = false ->
     exists st', loop e st = Some st' /\ canOpen st' = canOpen st).
Proof.
  intros Hst He. split; [done|]. split; [|split].
  - intros cmd Hcmd. eexists.
    split; [apply parseSlcan_spec; [lia|exact (proj1 (proj2 He))]|].
    apply dispatched_canOpen.
  - destruct (loop_total e st Hst He) as (st' & Hl & _ & Ho & _).
    exists st'. done.
  - intros Hc. destruct (loop_total e st Hst He) as (st' & Hl & _ & Ho & _).
    exists st'. split; [done|]. rewrite Ho.
    unfold completes, completes_line in *.
    destruct (serial_in e); [|done]. rewrite Hc. done.
Qed.

Lemma C9_bus_state_flag_witness :
  let st := State frame0 (buffer_of (chars "C") []) 1 true [] in
  exists st', loop (byte_env CR) st = Some st' /\ canOpen st' = false.
Proof.
  refine (proj1 (proj2 (proj2
    (C9_bus_state_flag (byte_env CR)
       (State frame0 (buffer_of (chars "C") []) 1 true []) _ _))));
    closed_wf.
Defined.

(** ** Runs of the main loop *)

Lemma completes_C_not_O e st :
  completes "C" e st = true -> completes "O" e st = false.
Proof.
  unfold completes. destruct (serial_in e); [|done].
  destruct (is_terminator a), (bool_decide (0 < slcanLen st)%nat);
    cbn [andb]; try done.
  destruct (nth 0 (slcanBuf st) NUL) as [[] [] [] [] [] [] [] []]; done.
Qed.

(** While no line that starts with 'O' is completed, a closed bus stays
    closed and no frame is forwarded. *)
Lemma run_closed es : forall st,
  state_wf st -> Forall env_wf es ->
  canOpen st = false -> no_command "O" es st ->
  exists st',
    run es st = Some st' /\ state_wf st' /\ canOpen st' = false /\
    forwarded (trace st') = forwarded (trace st).
Proof.
  induction es as [|e es IH]; intros st Hst Hes Hc Hno.
  - exists st. done.
  - apply Forall_cons in Hes as [He Hes]. destruct Hno as [HnO Hno].
    destruct (loop_total e st Hst He) as (st1 & Hl & Hw1 & Ho1 & Hf1).
    rewrite Hl in Hno. rewrite HnO, Hc in Ho1.
    assert (Hc1 : canOpen st1 = false) by (destruct (completes "C" e st); done).
    rewrite Hc1, app_nil_r in Hf1.
    destruct (IH st1 Hw1 Hes Hc1 Hno) as (st' & Hr & Hw' & Hc' & Hf').
    exists st'. cbn [run]. rewrite Hl. obind.
    split; [done|]. split; [done|]. split; [done|]. congruence.
Qed.

(** While no line that starts with 'C' is completed, an open bus stays open
    and the line of every standard frame polled is forwarded, in order. *)
Lemma run_open es : forall st,
  state_wf st -> Forall env_wf es ->
  canOpen st = true -> no_command "C" es st ->
  exists st',
    run es st = Some st' /\ state_wf st' /\ canOpen st' = true /\
    forwarded (trace st')
      = forwarded (trace st) ++ concat (map forwarded_line es).
Proof.
  induction es as [|e es IH]; intros st Hst Hes Hc Hno.
  - exists st. rewrite app_nil_r. done.
  - apply Forall_cons in Hes as [He Hes]. destruct Hno as [HnC Hno].
    destruct (loop_total e st Hst He) as (st1 & Hl & Hw1 & Ho1 & Hf1).
    rewrite Hl in Hno. rewrite HnC, Hc in Ho1.
    assert (Hc1 : canOpen st1 = true) by (destruct (completes "O" e st); done).
    rewrite Hc1 in Hf1.
    destruct (IH st1 Hw1 Hes Hc1 Hno) as (st' & Hr & Hw' & Hc' & Hf').
    exists st'. cbn [run]. rewrite Hl. obind.
    split; [done|]. split; [done|]. split; [done|].
    rewrite Hf', Hf1. cbn [map concat]. rewrite app_assoc. done.
Qed.

(** C4 — Forwarding is gated by the bus state.  The iteration that completes
    a 'C' line closes the bus and forwards nothing; from a closed bus, as
    long as no 'O' line is completed, no iteration forwards a frame; the
    iteration that completes an 'O' line opens the bus and already forwards
    the standard frame it polls; from an open bus, as long as no 'C' line is
    completed, every standard frame polled is forwarded. *)
Theorem C4_forwarding_gated (st : state) :
  state_wf st ->
  (forall e, env_wf e -> completes "C" e st = true ->
     exists st1, loop e st = Some st1 /\ canOpen st1 = false /\
                 forwarded (trace st1) = forwarded (trace st)) /\
  (forall es, Forall env_wf es -> canOpen st = false ->
     no_command "O" es st ->
     exists st', run es st = Some st' /\ canOpen st' = false /\
                 forwarded (trace st') = forwarded (trace st)) /\
  (forall e, env_wf e -> completes "O" e st = true ->
     exists st1, loop e st = Some st1 /\ canOpen st1 = true /\
                 forwarded (trace st1)
                   = forwarded (trace st) ++ forwarded_line e) /\
  (forall es, Forall env_wf es -> canOpen st = true ->
     no_command "C" es st ->
     exists st', run es st = Some st' /\ canOpen st' = true /\
                 forwarded (trace st')
                   = forwarded (trace st) ++ concat (map forwarded_line es)).
Proof.
  intros Hst. repeat split.
  - intros e He HC.
    destruct (loop_total e st Hst He) as (st1 & Hl & _ & Ho & Hf).
    rewrite (completes_C_not_O e st HC), HC in Ho.
    rewrite Ho, app_nil_r in Hf. exists st1. done.
  - intros es Hes Hc Hno.
    destruct (run_closed es st Hst Hes Hc Hno) as (st' & Hr & _ & Hc' & Hf).
    exists st'. done.
  - intros e He HO.
    destruct (loop_total e st Hst He) as (st1 & Hl & _ & Ho & Hf).
    rewrite HO in Ho. rewrite Ho in Hf. exists st1. done.
  - intros es Hes Hc Hno.
    destruct (run_open es st Hst Hes Hc Hno) as (st' & Hr & _ & Hc' & Hf).
    exists st'. done.
Qed.

Lemma C4_forwarding_gated_witness :
  let f := CanFrame 0x123 3 [1; 2; 3; 0; 0; 0; 0; 0] in
  let st := State frame0 (buffer_of (chars "C") []) 1 true [] in
  let e := Env (Some CR) (Some f) frame0 (replicate 32 NUL) in
  exists st1, loop e st = Some st1 /\ canOpen st1 = false /\
              forwarded (trace st1) = [].
Proof.
  refine (proj1 (C4_forwarding_gated
                   (State frame0 (buffer_of (chars "C") []) 1 true []) _)
            (Env (Some CR) (Some (CanFrame 0x123 3 [1; 2; 3; 0; 0; 0; 0; 0]))
               frame0 (replicate 32 NUL)) _ _);
    closed_wf.
Defined.

(** ** What the transmit case does with lines that are not well formed *)

Lemma decoded_frame_payload cmd tx0 j :
  length (data tx0) = 8%nat ->
  (j < Z.to_nat (Z.min (declared_length cmd) 8))%nat ->
  data (decoded_frame cmd tx0) !! j = Some (u8 (strtoul16 (pair_at cmd j))).
Proof.
  intros Htx Hj. cbn [data decoded_frame]. fold (declared_length cmd).
  rewrite lookup_app_l by (rewrite length_payload_of; done).
  unfold payload_of. rewrite list_lookup_fmap, lookup_seq_lt by done. done.
Qed.

Lemma strtoul_plain s :
  plain_field s = true -> digits 16 s 0 <= ULONG_MAX ->
  strtoul16 s = digits 16 s 0.
Proof.
  intros Hp Hmax. unfold strtoul16.
  destruct s as [|c r]; [done|].
  cbn [plain_field] in Hp.
  apply andb_true_iff in Hp as [Hp H0x]. apply andb_true_iff in Hp as [Hp Hplus].
  apply andb_true_iff in Hp as [Hsp Hminus].
  apply negb_true_iff in Hsp, Hminus, Hplus, H0x.
  cbn [skip_space]. rewrite Hsp, Hminus, Hplus.
  assert (Hs3 : match c :: r with
                | c0 :: x :: r0 =>
                    if (c0 =? "0")%char && ((x =? "x")%char || (x =? "X")%char)
                    then r0 else c :: r
                | _ => c :: r
                end = c :: r).
  { destruct r as [|x r0]; [done|]. rewrite H0x. done. }
  rewrite Hs3.
  destruct (Z.ltb_spec ULONG_MAX (digits 16 (c :: r) 0)); [lia|done].
Qed.

Lemma strtoul_no_digit c s :
  is_hex_digit c = false -> isspace c = false ->
  c <> "-"%char -> c <> "+"%char ->
  strtoul16 (c :: s) = 0.
Proof.
  intros Hd Hsp Hm Hp.
  assert (H0 : (c =? "0")%char = false).
  { destruct (Ascii.eqb_spec c "0"); [subst; discriminate Hd|done]. }
  assert (Hdig : digits 16 (c :: s) 0 = 0).
  { cbn [digits]. unfold is_hex_digit in Hd.
    destruct (digit_val c); [rewrite Hd|]; done. }
  rewrite strtoul_plain; [done| |rewrite Hdig; done].
  cbn [plain_field]. rewrite Hsp, H0.
  apply Ascii.eqb_neq in Hm, Hp. rewrite Hm, Hp. done.
Qed.

(** C2 (as the sketch behaves) — A transmit line shorter than
    [5 + 2 * declared length] is not rejected: [parseSlcan] answers it with a
    carriage return and sends one frame, whose fields are decoded from the
    fixed offsets of the receive buffer, whatever lies there after the end of
    the line.  Every read stays inside the 32 bytes of the buffer. *)
Theorem C2_short_transmit_is_sent (cmd : list ascii) (tx0 : can_frame)
    (st : state) :
  length cmd = 32%nat -> length (data tx0) = 8%nat ->
  is_transmit (nth 0 cmd NUL) = true ->
  (strlen cmd < 5 + 2 * Z.to_nat (declared_length cmd))%nat ->
  exists f,
    parseSlcan cmd tx0 st
      = Some (emit (SerialWrite1 CR) (emit (SendMessage f) st)) /\
    can_id f = strtoul16 (id_field cmd) mod 2 ^ 32 /\
    can_dlc f = declared_length cmd /\
    (forall j, (j < Z.to_nat (Z.min (declared_length cmd) 8))%nat ->
       data f !! j = Some (u8 (strtoul16 (pair_at cmd j)))).
Proof.
  intros Hcmd Htx Ht _. exists (decoded_frame cmd tx0).
  split.
  { rewrite parseSlcan_spec by (lia || done).
    rewrite dispatched_transmit by done. done. }
  split; [done|]. split; [done|].
  intros j Hj. apply decoded_frame_payload; done.
Qed.

Lemma C2_short_transmit_is_sent_witness :
  exists f,
    parseSlcan (buffer_of (chars "T1") (chars "38AABBCCDDEEFF0011")) frame0
      initial_state
      = Some (emit (SerialWrite1 CR) (emit (SendMessage f) initial_state)) /\
    can_id f = 1 /\ can_dlc f = 8.
Proof.
  destruct (C2_short_transmit_is_sent
              (buffer_of (chars "T1") (chars "38AABBCCDDEEFF0011"))
              frame0 initial_state)
    as (f & Hp & Hi & Hd & _);
    [reflexivity|reflexivity|reflexivity|vm_compute; lia|].
  exists f. split; [exact Hp|]. split; [exact Hi|exact Hd].
Defined.

(** The line "t1238AA" declares eight data bytes and carries one: typed
    after start-up it is answered with a carriage return, and a frame with
    identifier 0x123, length 8 and data AA 00 00 00 00 00 00 00 is sent. *)
Lemma C2_counterexample :
  let cmd := buffer_of (chars "T1238AA") [] in
  let sent := [SendMessage (CanFrame 0x123 8 [0xAA; 0; 0; 0; 0; 0; 0; 0]);
               SerialWrite1 CR] in
  strlen cmd = 7%nat /\ declared_length cmd = 8 /\
  run (map byte_env (chars "t1238AA" ++ [CR])) initial_state
    = Some (State frame0 cmd 0 true sent) /\
  parseSlcan cmd frame0 initial_state = Some (State frame0
    (replicate 32 NUL) 0 true sent) /\
  ~ rejects_short_transmit cmd frame0 initial_state.
Proof.
  cbv zeta. split; [reflexivity|]. split; [reflexivity|].
  split; [reflexivity|]. split; [reflexivity|].
  intros Hrej. destruct Hrej as (st' & Hp & Htr);
    [reflexivity|vm_compute; lia|].
  vm_compute in Hp. injection Hp as <-. discriminate Htr.
Qed.

(** C10 (as the sketch behaves) — No validation of the fields.  Every line
    that starts with 't' or 'T' is acknowledged with a carriage return and a
    frame is sent, with each field decoded by [strtoul] in base 16.  For a
    field that starts with neither white space, a sign nor a 0x prefix that
    is the value of its longest prefix of hex digits; a field whose first
    character is neither a hex digit, white space nor a sign decodes to 0. *)
Theorem C10_fields_not_validated (cmd : list ascii) (tx0 : can_frame)
    (st : state) :
  length cmd = 32%nat -> length (data tx0) = 8%nat ->
  is_transmit (nth 0 cmd NUL) = true ->
  (exists f,
     parseSlcan cmd tx0 st
       = Some (emit (SerialWrite1 CR) (emit (SendMessage f) st)) /\
     can_id f = strtoul16 (id_field cmd) mod 2 ^ 32 /\
     can_dlc f = u8 (strtoul16 (dlc_field cmd)) /\
     (forall j, (j < Z.to_nat (Z.min (can_dlc f) 8))%nat ->
        data f !! j = Some (u8 (strtoul16 (pair_at cmd j))))) /\
  (forall s, plain_field s = true -> digits 16 s 0 <= ULONG_MAX ->
     strtoul16 s = digits 16 s 0) /\
  (forall c s, is_hex_digit c = false -> isspace c = false ->
     c <> "-"%char -> c <> "+"%char -> strtoul16 (c :: s) = 0).
Proof.
  intros Hcmd Htx Ht. split; [|split].
  - exists (decoded_frame cmd tx0). split.
    { rewrite parseSlcan_spec by (lia || done).
      rewrite dispatched_transmit by done. done. }
    split; [done|]. split; [done|].
    intros j Hj. apply decoded_frame_payload; done.
  - apply strtoul_plain.
  - apply strtoul_no_digit.
Qed.

Lemma C10_fields_not_validated_witness :
  exists f,
    parseSlcan (buffer_of (chars "TZZZZ") []) frame0 initial_state
      = Some (emit (SerialWrite1 CR) (emit (SendMessage f) initial_state)) /\
    can_id f = 0 /\ can_dlc f = 0.
Proof.
  destruct (C10_fields_not_validated (buffer_of (chars "TZZZZ") []) frame0
              initial_state)
    as ((f & Hp & Hi & Hd & _) & _); [reflexivity|reflexivity|reflexivity|].
  exists f. split; [exact Hp|]. split; [exact Hi|exact Hd].
Defined.

(** The line "T-1F0": the identifier field "-1F" starts with a character
    that is not a hex digit, its longest prefix of hex digits is empty, and
    yet it decodes to 0xFFFFFFE1, the negation of 0x1F in 32 bits. *)
Lemma C10_counterexample :
  let cmd := buffer_of (chars "T-1F0") [] in
  id_field cmd = chars "-1F" ++ [NUL] /\
  is_hex_digit "-" = false /\
  digits 16 (id_field cmd) 0 = 0 /\
  strtoul16 (id_field cmd) = 0xFFFFFFE1 /\
  parseSlcan cmd frame0 initial_state
    = Some (emit (SerialWrite1 CR)
              (emit (SendMessage (CanFrame 0xFFFFFFE1 0 (replicate 8 0)))
                 initial_state)) /\
  ~ no_hex_digit_decodes_to_zero (id_field cmd).
Proof.
  cbv zeta. repeat (split; [reflexivity|]).
  intros Hz. specialize (Hz eq_refl). vm_compute in Hz. discriminate Hz.
Qed.

(** * The line assembler, the decoder and the encoder together *)

Lemma run_app es1 : forall es2 st,
  run (es1 ++ es2) st = run es1 st ≫= run es2.
Proof.
  induction es1 as [|e es1 IH]; intros es2 st; [done|].
  cbn [app run]. destruct (loop e st) as [st1|]; [|done].
  obind. apply IH.
Qed.

Lemma loop_can_idle e st : can_rx e = None -> loop_can e st = Some st.
Proof. intros He. unfold loop_can. rewrite He. by destruct (canOpen st). Qed.

(** A byte that is no terminator is stored in upper case. *)
Lemma loop_byte c st :
  state_wf st -> is_terminator c = false ->
  (slcanLen st + 1 < SLCAN_BUF_SIZE)%nat ->
  loop (byte_env c) st
  = Some (set_slcanLen (slcanLen st + 1)
            (set_slcanBuf (<[slcanLen st := toupper c]> (slcanBuf st)) st)).
Proof.
  intros Hst Hc Hfit. unfold loop.
  rewrite loop_serial_spec by done. cbn [serial_in byte_env].
  rewrite Hc, decide_True by done. obind. apply loop_can_idle. done.
Qed.

(** A terminator hands the pending line to the dispatcher. *)
Lemma loop_terminator c st :
  state_wf st -> is_terminator c = true -> (0 < slcanLen st)%nat ->
  loop (byte_env c) st
  = Some (set_slcanLen 0
            (dispatched (terminated st) frame0
               (set_slcanBuf (terminated st) st))).
Proof.
  intros Hst Hc Hpos. unfold loop.
  rewrite loop_serial_spec by done. cbn [serial_in byte_env txFrame0].
  rewrite Hc, decide_True by done. obind. apply loop_can_idle. done.
Qed.

Lemma run_bytes (l : list ascii) : forall st,
  state_wf st -> (slcanLen st + length l < SLCAN_BUF_SIZE)%nat ->
  Forall (fun c => is_terminator c = false) l ->
  run (map byte_env l) st
  = Some (set_slcanLen (slcanLen st + length l)
            (set_slcanBuf
               (list_inserts (slcanLen st) (map toupper l) (slcanBuf st)) st)).
Proof.
  induction l as [|c l IH]; intros st Hst Hfit Hl.
  - cbn. rewrite Nat.add_0_r. by destruct st.
  - apply Forall_cons in Hl as [Hc Hl]. cbn [map run length] in *.
    rewrite loop_byte by (done || lia). obind.
    destruct Hst as [Hlen Hpos].
    rewrite IH; [| |cbn [slcanLen set_slcanLen set_slcanBuf]; lia|done].
    + unfold set_slcanLen, set_slcanBuf.
      cbn [rxFrame slcanBuf slcanLen canOpen trace list_inserts].
      replace (slcanLen st + 1)%nat with (S (slcanLen st)) by lia.
      rewrite <- list_insert_inserts_lt by lia.
      do 2 f_equal. lia.
    + split; cbn [slcanBuf slcanLen set_slcanLen set_slcanBuf].
      * rewrite length_insert. done.
      * lia.
Qed.

Lemma hex_upper_plain c :
  c ∈ hex_upper -> toupper c = c /\ is_terminator c = false.
Proof.
  intros Hc. apply list_elem_of_In in Hc. cbn in Hc.
  repeat (destruct Hc as [<-|Hc]; [done|]). done.
Qed.

Lemma slcan_line_chars f :
  exists tl, slcan_line f = "t"%char :: tl /\ Forall (fun c => c ∈ hex_upper) tl.
Proof.
  eexists. split; [reflexivity|].
  apply Forall_app_2; [apply hex_field_upper|].
  apply Forall_app_2; [apply hex_field_upper|].
  apply Forall_concat, Forall_fmap, Forall_true. intros b. apply hex_field_upper.
Qed.

(** The bytes [sendSlcanFrame] writes for a frame, received one per iteration
    by a bridge whose line buffer is empty, make it send the same frame (an
    11-bit identifier, the length and the payload) and acknowledge. *)
Theorem roundtrip_through_loop (f : can_frame) (st : state) :
  frame_wf f -> can_id f <= 0x7FF -> can_dlc f <= 8 ->
  state_wf st -> slcanLen st = 0%nat ->
  exists st' f',
    run (map byte_env (slcan_line f ++ [CR])) st = Some st' /\
    trace st' = trace st ++ [SendMessage f'; SerialWrite1 CR] /\
    can_id f' = can_id f /\ can_dlc f' = can_dlc f /\
    take (Z.to_nat (can_dlc f)) (data f')
      = take (Z.to_nat (can_dlc f)) (data f) /\
    slcanLen st' = 0%nat /\ canOpen st' = canOpen st.
Proof.
  intros (Hid & Hdlc & Hlen & Hbytes) Hid11 Hle Hst Hempty.
  set (n := Z.to_nat (can_dlc f)).
  destruct (slcan_line_chars f) as (tl & Hline & Htl).
  pose proof (length_slcan_line f) as Hll. fold n in Hll.
  assert (Hltl : length (slcan_line f) = S (length tl)) by (rewrite Hline; done).
  assert (Hnt : Forall (fun c => is_terminator c = false) (slcan_line f)).
  { rewrite Hline. constructor; [done|].
    eapply Forall_impl; [exact Htl|]. intros c Hc. by apply hex_upper_plain. }
  assert (Hup : map toupper (slcan_line f) = "T"%char :: tl).
  { rewrite Hline. cbn [map]. f_equal.
    rewrite <- (map_id tl) at 2. apply map_ext_Forall.
    eapply Forall_impl; [exact Htl|]. intros c Hc. by apply hex_upper_plain. }
  destruct Hst as [Hbuf Hpos]. unfold SLCAN_BUF_SIZE in *.
  rewrite map_app, run_app.
  rewrite run_bytes by (done || unfold SLCAN_BUF_SIZE; lia).
  obind. cbn [map run]. rewrite Hempty, Nat.add_0_l, Hup.
  set (st1 := set_slcanLen _ _).
  assert (Hl1 : slcanLen st1 = length (slcan_line f)) by done.
  assert (Hpos1 : (0 < slcanLen st1)%nat) by (rewrite Hl1, Hline; cbn; lia).
  assert (Hw1 : state_wf st1).
  { split; [|unfold SLCAN_BUF_SIZE; lia].
    cbn [st1 slcanBuf set_slcanLen set_slcanBuf]. rewrite length_inserts. done. }
  rewrite loop_terminator by done. obind.
  set (cmd := terminated st1).
  assert (Hheld : forall i c, (1 <= i)%nat -> slcan_line f !! i = Some c ->
                    nth i cmd NUL = c).
  { intros i c Hi Hc. apply nth_lookup_Some.
    pose proof (lookup_lt_Some _ _ _ Hc) as Hlt.
    unfold cmd, terminated. rewrite list_lookup_insert_ne by lia.
    cbn [st1 slcanBuf set_slcanLen set_slcanBuf].
    rewrite list_lookup_inserts by (cbn [length]; lia).
    rewrite Nat.sub_0_r. rewrite Hline in Hc.
    destruct i as [|i]; [lia|]. exact Hc. }
  assert (H0 : nth 0 cmd NUL = "T"%char).
  { apply nth_lookup_Some. unfold cmd, terminated.
    rewrite list_lookup_insert_ne by lia.
    cbn [st1 slcanBuf set_slcanLen set_slcanBuf].
    rewrite list_lookup_inserts by (cbn [length]; lia). done. }
  rewrite dispatched_transmit by (rewrite H0; done).
  rewrite (line_decoded f n); [|lia|lia|lia|done|done|done|done].
  eexists _, _. split; [reflexivity|].
  cbn [trace emit set_slcanLen set_slcanBuf st1 can_id can_dlc data
       slcanLen canOpen].
  rewrite <- app_assoc. split; [done|]. split; [done|]. split; [done|].
  split; [|done]. cbn [data].
  rewrite take_app_length'; [done|]. rewrite length_take. lia.
Qed.

(** ** The scenarios of the protocol description at the level of [run] *)

Example run_scenario1 :
  run (map byte_env (chars "O" ++ [CR])) (set_canOpen false initial_state)
  = Some (State frame0 (buffer_of (chars "O") []) 0 true [SerialWrite1 CR]).
Proof. reflexivity. Qed.

Example run_scenario2 :
  run (map byte_env (chars "t0032AABB" ++ [CR])) initial_state
  = Some (State frame0 (buffer_of (chars "T0032AABB") []) 0 true
            [SendMessage (CanFrame 3 2 [0xAA; 0xBB; 0; 0; 0; 0; 0; 0]);
             SerialWrite1 CR]).
Proof. reflexivity. Qed.

Example run_scenario3 :
  run (map byte_env (chars "Z" ++ [CR])) initial_state
  = Some (State frame0 (buffer_of (chars "Z") []) 0 true [SerialWrite1 BEL]).
Proof. reflexivity. Qed.

Example run_scenario5 :
  run [frame_env (CanFrame 0x80000123 3 [1; 2; 3; 0; 0; 0; 0; 0])]
    initial_state
  = Some (set_rxFrame (CanFrame 0x80000123 3 [1; 2; 3; 0; 0; 0; 0; 0])
            initial_state).
Proof. reflexivity. Qed.

(** Close, two frames arrive, open, the frame held then is forwarded. *)
Example run_close_then_open :
  let f := CanFrame 0x123 3 [1; 2; 3; 0; 0; 0; 0; 0] in
  (run (map byte_env (chars "c" ++ [CR]) ++ [frame_env f; frame_env f]
        ++ map byte_env (chars "o" ++ [CR; LF]) ++ [frame_env f])
     initial_state
   ≫= fun st => Some (canOpen st, trace st))
  = Some (true, [SerialWrite1 CR; SerialWrite1 CR;
                 SerialWriteN (chars "t1233010203" ++ [CR])]).
Proof. reflexivity. Qed.

(** * Further properties of the bridge *)

(** ** Facts about single bytes *)

Lemma toupper_idem c : toupper (toupper c) = toupper c.
Proof. destruct c as [[] [] [] [] [] [] [] []]; reflexivity. Qed.

Lemma is_terminator_toupper c : is_terminator (toupper c) = is_terminator c.
Proof. destruct c as [[] [] [] [] [] [] [] []]; reflexivity. Qed.

Lemma is_lower_toupper c : is_lower (toupper c) = false.
Proof. destruct c as [[] [] [] [] [] [] [] []]; reflexivity. Qed.

Lemma eqb_lower_false c k :
  is_lower c = false -> is_lower k = true -> (c =? k)%char = false.
Proof.
  intros Hc Hk. destruct (Ascii.eqb_spec c k) as [->|]; [congruence|done].
Qed.

(** ** The poll of the controller, in closed form *)

Lemma loop_can_spec e st :
  env_wf e ->
  loop_can e st = Some
    (if canOpen st then
       match can_rx e with
       | Some f =>
           if Z.land (can_id f) CAN_EFF_FLAG =? 0
           then emit (SerialWriteN (slcan_line f ++ [CR])) (set_rxFrame f st)
           else set_rxFrame f st
       | None => st
       end
     else st).
Proof.
  intros (Hout & _ & Hrx). unfold loop_can.
  destruct (canOpen st); [|done].
  destruct (can_rx e) as [f|]; [|done].
  destruct (Hrx f eq_refl) as [Hf Hle].
  rewrite sendSlcanFrame_total by done.
  destruct (Z.land (can_id f) CAN_EFF_FLAG =? 0); done.
Qed.

Lemma loop_can_globals e st st' :
  env_wf e -> loop_can e st = Some st' ->
  slcanBuf st' = slcanBuf st /\ slcanLen st' = slcanLen st /\
  canOpen st' = canOpen st /\
  responses (trace st') = responses (trace st) /\
  sent_frames (trace st') = sent_frames (trace st).
Proof.
  intros He Hl. rewrite loop_can_spec in Hl by done. injection Hl as <-.
  destruct (canOpen st) eqn:Ho; [|done].
  destruct (can_rx e) as [f|]; [|done].
  destruct (Z.land (can_id f) CAN_EFF_FLAG =? 0); [|done].
  cbn [slcanBuf slcanLen canOpen trace emit set_rxFrame].
  unfold responses, sent_frames. rewrite !omap_app. cbn.
  rewrite !app_nil_r. done.
Qed.

(** X1 — No access out of bounds, ever.  From a state with a 32-byte buffer
    and [slcanLen] below 32, as at start-up, any number of iterations on any
    bytes and any frames of the controller runs through without an access
    outside an array, and the state keeps that shape. *)
Theorem X1_run_in_bounds (es : list env) : forall st,
  state_wf st -> Forall env_wf es ->
  exists st', run es st = Some st' /\ state_wf st'.
Proof.
  induction es as [|e es IH]; intros st Hst Hes.
  - exists st. done.
  - apply Forall_cons in Hes as [He Hes].
    destruct (loop_total e st Hst He) as (st1 & Hl & Hw1 & _).
    destruct (IH st1 Hw1 Hes) as (st' & Hr & Hw').
    exists st'. cbn [run]. rewrite Hl. done.
Qed.

Lemma X1_run_in_bounds_witness :
  exists st',
    run (map byte_env (chars "t7FF8" ++ replicate 40 "9"%char ++ [CR])
         ++ [frame_env (CanFrame 0x7FF 8 (replicate 8 0xFF))])
      initial_state = Some st' /\ state_wf st'.
Proof.
  apply X1_run_in_bounds; [closed_wf|].
  repeat (apply Forall_cons; split; [closed_wf|]). apply Forall_nil. done.
Defined.

(** X3 — Commands are read without regard to case.  An iteration, and so a
    whole run, gives the same result when the serial bytes arrive in upper
    case: a byte matters only through [toupper] and through being CR or LF. *)
Theorem X3_case_insensitive (es : list env) :
  forall st, run (map upper_env es) st = run es st.
Proof.
  assert (Hloop : forall e st, loop (upper_env e) st = loop e st).
  { intros e st. unfold loop, loop_serial, loop_can, upper_env.
    cbn [serial_in can_rx txFrame0 out0].
    destruct (serial_in e) as [c|]; [|done]. cbn [option_map].
    rewrite is_terminator_toupper, toupper_idem. done. }
  induction es as [|e es IH]; intros st; [done|].
  cbn [map run]. rewrite Hloop.
  destruct (loop e st) as [st1|]; [|done]. obind. apply IH.
Qed.

(** The buffer never holds a lower-case letter or a terminator. *)
Lemma loop_buf_clean e st st' :
  state_wf st -> env_wf e -> buf_clean st ->
  loop e st = Some st' -> buf_clean st'.
Proof.
  intros Hst He Hc Hl. unfold loop in Hl.
  rewrite loop_serial_spec in Hl by (done || exact (proj1 (proj2 He))).
  cbn [mbind option_bind] in Hl.
  destruct (loop_can_globals e _ st' He Hl) as (Hb & _).
  unfold buf_clean in *. rewrite Hb. clear Hl Hb.
  destruct (serial_in e) as [c|]; [|done].
  destruct (is_terminator c) eqn:Ht.
  - destruct (decide (0 < slcanLen st)%nat); [|done].
    cbn [slcanBuf set_slcanLen].
    rewrite (proj1 (proj2 (dispatched_globals _ _ _))).
    cbn [slcanBuf set_slcanBuf]. unfold terminated.
    apply Forall_insert; done.
  - destruct (decide (slcanLen st + 1 < SLCAN_BUF_SIZE)%nat); [|done].
    cbn [slcanBuf set_slcanLen set_slcanBuf].
    apply Forall_insert; [done|].
    rewrite is_lower_toupper, is_terminator_toupper. done.
Qed.

(** X4 — The buffer is kept in upper case.  If no byte of the receive buffer
    is a lower-case letter (as at start-up), then no run can change that, and
    no iteration after it completes a command line that starts with a
    lower-case letter: through [loop] the case 't' of the switch is never
    taken, a transmit line always reaches it as 'T'. *)
Theorem X4_buffer_stays_upper (es : list env) : forall st,
  state_wf st -> buf_clean st -> Forall env_wf es ->
  exists st',
    run es st = Some st' /\ buf_clean st' /\
    forall e k, is_lower k = true -> completes k e st' = false.
Proof.
  assert (Hrun : forall es st, state_wf st -> buf_clean st -> Forall env_wf es ->
            exists st', run es st = Some st' /\ buf_clean st').
  { clear es. induction es as [|e es IH]; intros st Hst Hc Hes.
    - exists st. done.
    - apply Forall_cons in Hes as [He Hes].
      destruct (loop_total e st Hst He) as (st1 & Hl & Hw1 & _).
      pose proof (loop_buf_clean e st st1 Hst He Hc Hl) as Hc1.
      destruct (IH st1 Hw1 Hc1 Hes) as (st' & Hr & Hc').
      exists st'. cbn [run]. rewrite Hl. done. }
  intros st Hst Hc Hes.
  destruct (Hrun es st Hst Hc Hes) as (st' & Hr & Hc').
  exists st'. split; [done|]. split; [done|].
  intros e k Hk. unfold completes.
  destruct (serial_in e) as [c|]; [|done].
  assert (Hn : is_lower (nth 0 (slcanBuf st') NUL) = false).
  { rewrite nth_lookup. destruct (slcanBuf st' !! 0%nat) as [x|] eqn:Hx; [|done].
    unfold buf_clean in Hc'. rewrite Forall_forall in Hc'.
    apply Hc'. eapply list_elem_of_lookup_2. exact Hx. }
  rewrite (eqb_lower_false _ k Hn Hk). apply andb_false_r.
Qed.

Lemma X4_buffer_stays_upper_witness :
  exists st',
    run (map byte_env (chars "t1230")) initial_state = Some st' /\
    buf_clean st' /\
    forall e k, is_lower k = true -> completes k e st' = false.
Proof.
  apply X4_buffer_stays_upper; [closed_wf| |].
  - unfold buf_clean. cbn. repeat (apply Forall_cons; split; [done|]).
    apply Forall_nil. done.
  - repeat (apply Forall_cons; split; [closed_wf|]). apply Forall_nil. done.
Defined.

(** ** The line assembler on lines of any length *)

(** With 31 bytes in the buffer a further byte is dropped. *)
Lemma run_bytes_full (l : list ascii) st :
  state_wf st -> slcanLen st = 31%nat ->
  Forall (fun c => is_terminator c = false) l ->
  run (map byte_env l) st = Some st.
Proof.
  intros Hst Hfull Hl. induction l as [|c l IH]; [done|].
  apply Forall_cons in Hl as [Hc Hl]. cbn [map run].
  assert (Hloop : loop (byte_env c) st = Some st).
  { unfold loop. rewrite loop_serial_spec by done.
    cbn [serial_in byte_env]. rewrite Hc, Hfull.
    rewrite decide_False by (unfold SLCAN_BUF_SIZE; lia).
    obind. apply loop_can_idle. done. }
  rewrite Hloop. obind. apply IH. done.
Qed.

Lemma run_bytes_truncated (l : list ascii) st :
  state_wf st -> slcanLen st = 0%nat ->
  Forall (fun c => is_terminator c = false) l ->
  run (map byte_env l) st
  = Some (set_slcanLen (length l `min` 31)
            (set_slcanBuf
               (list_inserts 0 (take 31 (map toupper l)) (slcanBuf st)) st)).
Proof.
  intros Hst Hempty Hl.
  rewrite <- (take_drop 31 l) at 1. rewrite map_app, run_app.
  rewrite run_bytes;
    [|done|rewrite Hempty, length_take; unfold SLCAN_BUF_SIZE; lia
     |apply Forall_take; done].
  obind. rewrite Hempty, Nat.add_0_l, length_take, <- firstn_map.
  rewrite (Nat.min_comm 31).
  destruct (drop 31 l) as [|c r] eqn:Hd; [done|].
  assert (Hlong : (31 < length l)%nat).
  { apply (f_equal length) in Hd. rewrite length_drop in Hd. cbn in Hd. lia. }
  rewrite <- Hd. apply run_bytes_full.
  - destruct Hst as [Hb _]. split; cbn; [|unfold SLCAN_BUF_SIZE; lia].
    rewrite length_inserts. done.
  - cbn. lia.
  - apply Forall_drop. done.
Qed.

Lemma assembled_parts (l buf : list ascii) :
  length buf = 32%nat ->
  let n := (length l `min` 31)%nat in
  assembled l buf = take 31 (map toupper l) ++ NUL :: drop (S n) buf.
Proof.
  intros Hb n. unfold assembled.
  assert (Hn : length (take 31 (map toupper l)) = n)
    by (rewrite length_take, length_map; lia).
  rewrite inserts_split by (rewrite length_app, Hn; cbn; lia).
  rewrite take_0, length_app, Hn. cbn [app length].
  rewrite <- app_assoc. cbn [app]. do 3 f_equal. lia.
Qed.

Lemma dispatched_reset cmd tx0 st k :
  set_slcanLen 0 (dispatched cmd tx0 (set_slcanLen k st))
  = set_slcanLen 0 (dispatched cmd tx0 st).
Proof.
  unfold dispatched. cbv zeta.
  destruct (nth 0 cmd NUL =? "O")%char; [done|].
  destruct (nth 0 cmd NUL =? "C")%char; [done|].
  destruct (is_transmit (nth 0 cmd NUL)); done.
Qed.

(** X2 — The line assembler.  Bytes other than CR and LF that arrive in an
    empty line buffer, however many, followed by a terminator, hand
    [parseSlcan] a buffer that starts with the first 31 of them in upper
    case, then a NUL, then whatever the buffer held before at those places;
    the bytes after the 31st are dropped without notice.  Afterwards the
    line buffer is empty again. *)
Theorem X2_line_assembly (l : list ascii) (c : ascii) (st : state) :
  state_wf st -> slcanLen st = 0%nat -> l <> [] ->
  Forall (fun b => is_terminator b = false) l -> is_terminator c = true ->
  let n := (length l `min` 31)%nat in
  exists cmd st2,
    take n cmd = map toupper (take 31 l) /\ cmd !! n = Some NUL /\
    drop (S n) cmd = drop (S n) (slcanBuf st) /\
    parseSlcan cmd frame0 (set_slcanBuf cmd st) = Some st2 /\
    run (map byte_env (l ++ [c])) st = Some (set_slcanLen 0 st2).
Proof.
  intros Hst Hempty Hne Hl Hc n.
  pose proof Hst as [Hb _]. unfold SLCAN_BUF_SIZE in Hb.
  assert (Hn : length (take 31 (map toupper l)) = n)
    by (rewrite length_take, length_map; lia).
  exists (assembled l (slcanBuf st)), (dispatched (assembled l (slcanBuf st))
            frame0 (set_slcanBuf (assembled l (slcanBuf st)) st)).
  rewrite assembled_parts by done. fold n.
  split; [rewrite take_app_length' by lia; apply firstn_map|].
  split; [apply list_lookup_middle; lia|].
  split.
  { rewrite cons_middle, app_assoc, drop_app_length'; [done|].
    rewrite length_app. cbn [length]. lia. }
  assert (Hlen : length (take 31 (map toupper l) ++ NUL :: drop (S n) (slcanBuf st))
                 = 32%nat).
  { rewrite length_app, Hn. cbn [length]. rewrite length_drop. lia. }
  split; [apply parseSlcan_spec; [lia|done]|].
  rewrite map_app, run_app, run_bytes_truncated by done.
  obind. cbn [map run]. fold n.
  set (st1 := set_slcanLen n _).
  assert (Hpos : (0 < n)%nat) by (destruct l; [done|cbn in *; lia]).
  assert (Hw1 : state_wf st1).
  { split; cbn; [rewrite length_inserts; done|unfold SLCAN_BUF_SIZE; lia]. }
  rewrite loop_terminator by done. obind.
  assert (Hterm : terminated st1
                  = take 31 (map toupper l) ++ NUL :: drop (S n) (slcanBuf st)).
  { pose proof (assembled_parts l (slcanBuf st) Hb) as Ha.
    cbv zeta in Ha. fold n in Ha. rewrite <- Ha.
    unfold terminated, assembled, st1.
    cbn [slcanLen slcanBuf set_slcanLen set_slcanBuf].
    rewrite list_inserts_app_l, Hn, Nat.add_0_r. done. }
  rewrite Hterm. unfold st1.
  change (set_slcanBuf ?b (set_slcanLen ?k (set_slcanBuf ?b' ?s)))
    with (set_slcanLen k (set_slcanBuf b s)).
  rewrite dispatched_reset. done.
Qed.

Lemma X2_line_assembly_witness :
  let l := chars "t123" ++ replicate 40 "a"%char in
  exists cmd st2,
    take 31 cmd = map toupper (take 31 l) /\ cmd !! 31%nat = Some NUL /\
    drop 32 cmd = drop 32 (slcanBuf initial_state) /\
    parseSlcan cmd frame0 (set_slcanBuf cmd initial_state) = Some st2 /\
    run (map byte_env (l ++ [LF])) initial_state = Some (set_slcanLen 0 st2).
Proof.
  apply (X2_line_assembly (chars "t123" ++ replicate 40 "a"%char) LF
           initial_state); [closed_wf|done|done| |done].
  repeat (apply Forall_cons; split; [done|]). apply Forall_nil. done.
Defined.

(** ** The lines of the encoder *)

Lemma length_slcan_line_exact f :
  length (data f) = 8%nat -> 0 <= can_dlc f <= 8 ->
  length (slcan_line f) = (5 + 2 * Z.to_nat (can_dlc f))%nat.
Proof.
  intros Hlen Hd. unfold slcan_line. cbn [length].
  rewrite !length_app, !length_hex_field, length_payload_chars, length_take.
  lia.
Qed.

Lemma hex_upper_not_nul c : c ∈ hex_upper -> c <> NUL.
Proof.
  intros Hc. apply list_elem_of_In in Hc. cbn in Hc.
  repeat (destruct Hc as [<-|Hc]; [done|]). done.
Qed.

(** X5 — Framing of a forwarded line.  The line written for a standard frame
    with at most eight data bytes is [5 + 2 * can_dlc] characters, none of
    them CR, LF or NUL, followed by exactly one CR: the host can split the
    stream at CR, and the line fits the 32-byte arrays of the sketch. *)
Theorem X5_line_framing (f : can_frame) (out : list ascii) (st : state) :
  frame_wf f -> Z.land (can_id f) CAN_EFF_FLAG = 0 -> can_dlc f <= 8 ->
  length out = 32%nat ->
  exists line,
    sendSlcanFrame f out st = Some (emit (SerialWriteN (line ++ [CR])) st) /\
    length line = (5 + 2 * Z.to_nat (can_dlc f))%nat /\
    (length line <= 21)%nat /\
    Forall (fun c => is_terminator c = false /\ c <> NUL) line.
Proof.
  intros Hf Hstd Hle Hout. exists (slcan_line f).
  rewrite sendSlcanFrame_total by done. rewrite Hstd. cbn [Z.eqb].
  destruct Hf as (_ & Hd & Hlen & _).
  rewrite length_slcan_line_exact by (done || lia).
  split; [done|]. split; [done|]. split; [lia|].
  destruct (slcan_line_chars f) as (tl & -> & Htl).
  constructor; [done|].
  eapply Forall_impl; [exact Htl|]. intros c Hc.
  split; [by apply hex_upper_plain|by apply hex_upper_not_nul].
Qed.

Lemma X5_line_framing_witness :
  exists line,
    sendSlcanFrame (CanFrame 0x7FF 8 (replicate 8 0xFF)) (replicate 32 CR)
      initial_state
      = Some (emit (SerialWriteN (line ++ [CR])) initial_state) /\
    length line = 21%nat /\ (length line <= 21)%nat /\
    Forall (fun c => is_terminator c = false /\ c <> NUL) line.
Proof.
  apply (X5_line_framing (CanFrame 0x7FF 8 (replicate 8 0xFF))); closed_wf.
Defined.

(** X6 — The encoder loses nothing.  Two frames with 11-bit identifiers and
    at most eight data bytes for which [sendSlcanFrame] writes the same bytes
    have the same identifier, the same length and the same payload. *)
Theorem X6_encoder_injective (f g : can_frame) (out out' : list ascii)
    (st : state) :
  frame_wf f -> frame_wf g ->
  can_id f <= 0x7FF -> can_id g <= 0x7FF -> can_dlc f <= 8 -> can_dlc g <= 8 ->
  length out = 32%nat -> length out' = 32%nat ->
  sendSlcanFrame f out st = sendSlcanFrame g out' st ->
  can_id f = can_id g /\ can_dlc f = can_dlc g /\
  take (Z.to_nat (can_dlc f)) (data f) = take (Z.to_nat (can_dlc f)) (data g).
Proof.
  intros Hf Hg Hidf Hidg Hdf Hdg Hout Hout' Heq.
  rewrite !sendSlcanFrame_total in Heq by done.
  pose proof Hf as (Hf1 & Hf2 & Hf3 & Hf4).
  pose proof Hg as (Hg1 & Hg2 & Hg3 & Hg4).
  rewrite !standard_id_has_no_eff_flag in Heq by lia. cbn [Z.eqb] in Heq.
  remember (slcan_line f ++ [CR]) as lf eqn:Elf.
  remember (slcan_line g ++ [CR]) as lg eqn:Elg.
  injection Heq as Heq. apply app_inv_head in Heq. injection Heq as Heq.
  subst lf lg. apply app_inv_tail in Heq.
  pose proof (line_decoded f (Z.to_nat (can_dlc f)) ltac:(lia) ltac:(lia)
                ltac:(lia) Hf3 Hf4 (buffer_of (slcan_line f) [])
                (fun i c _ => buffer_holds_line f [] i c Hdf)
                frame0 eq_refl) as Hdecf.
  pose proof (line_decoded g (Z.to_nat (can_dlc g)) ltac:(lia) ltac:(lia)
                ltac:(lia) Hg3 Hg4 (buffer_of (slcan_line g) [])
                (fun i c _ => buffer_holds_line g [] i c Hdg)
                frame0 eq_refl) as Hdecg.
  rewrite <- Heq, Hdecf in Hdecg. injection Hdecg as Hi Hd Hdata.
  split; [done|]. split; [done|].
  rewrite <- Hd in Hdata. apply app_inv_tail in Hdata. done.
Qed.

Lemma X6_encoder_injective_witness :
  let f := CanFrame 0x123 2 [1; 2; 3; 4; 5; 6; 7; 8] in
  let g := CanFrame 0x123 2 [1; 2; 0; 0; 0; 0; 0; 0] in
  can_id f = can_id g /\ can_dlc f = can_dlc g /\
  take (Z.to_nat (can_dlc f)) (data f) = take (Z.to_nat (can_dlc f)) (data g).
Proof.
  apply (X6_encoder_injective (CanFrame 0x123 2 [1; 2; 3; 4; 5; 6; 7; 8])
           (CanFrame 0x123 2 [1; 2; 0; 0; 0; 0; 0; 0])
           (replicate 32 NUL) (replicate 32 CR) initial_state); closed_wf.
Defined.

(** X11 — Only eleven identifier bits reach the host.  For frames without
    the extended flag, [sendSlcanFrame] writes the same line whatever bits 11
    to 30 of [can_id] are: a frame that carries the remote-request or the
    error flag is forwarded like a data frame with the same low bits. *)
Theorem X11_flag_bits_dropped (f : can_frame) (v : Z) (out : list ascii)
    (st : state) :
  frame_wf f -> can_dlc f <= 8 -> length out = 32%nat ->
  Z.land (can_id f) CAN_EFF_FLAG = 0 ->
  0 <= v < 2 ^ 32 -> Z.land v CAN_EFF_FLAG = 0 ->
  Z.land v 0x7FF = Z.land (can_id f) 0x7FF ->
  sendSlcanFrame (set_can_id v f) out st = sendSlcanFrame f out st.
Proof.
  intros Hf Hle Hout Hstd Hv Hvstd Hlow.
  assert (Hf' : frame_wf (set_can_id v f)).
  { destruct Hf as (_ & H2 & H3 & H4). unfold frame_wf.
    cbn [can_id can_dlc data set_can_id]. done. }
  rewrite !sendSlcanFrame_total by done.
  cbn [can_id set_can_id]. rewrite Hstd, Hvstd. cbn [Z.eqb].
  unfold slcan_line. cbn [can_id can_dlc data set_can_id]. rewrite Hlow. done.
Qed.

Lemma X11_flag_bits_dropped_witness :
  sendSlcanFrame (CanFrame 0x40000123 0 (replicate 8 0)) (replicate 32 NUL)
    initial_state
  = sendSlcanFrame (CanFrame 0x123 0 (replicate 8 0)) (replicate 32 NUL)
      initial_state.
Proof.
  apply (X11_flag_bits_dropped (CanFrame 0x123 0 (replicate 8 0)) 0x40000123);
    closed_wf.
Defined.

(** ** Well-formed transmit lines *)

Section TxLine.

Variable c0 : ascii.
Variable id : Z.
Variable bytes : list Z.
Hypothesis Hid : 0 <= id < 4096.
Hypothesis Hn : (length bytes <= 8)%nat.
Hypothesis Hbytes : Forall (fun b => 0 <= b < 256) bytes.

Variable rest : list ascii.

#[local] Abbreviation txcmd := (buffer_of (tx_line c0 id bytes) rest).

Lemma length_tx_line :
  length (tx_line c0 id bytes) = (5 + 2 * length bytes)%nat.
Proof.
  unfold tx_line. cbn [length].
  rewrite !length_app, !length_hex_field, length_payload_chars. lia.
Qed.

Lemma tx_line_held i c :
  tx_line c0 id bytes !! i = Some c -> nth i txcmd NUL = c.
Proof.
  intros Hc. apply nth_buffer_of; [|done].
  apply lookup_lt_Some in Hc. rewrite length_tx_line in Hc. lia.
Qed.

Lemma tx_line_split :
  tx_line c0 id bytes =
  (c0 :: hex_field 3 id ++ hex_field 1 (Z.of_nat (length bytes)))
  ++ concat (map (hex_field 2) bytes).
Proof. unfold tx_line. cbn [app]. rewrite <- app_assoc. done. Qed.

Lemma tx_line_pair_at j b :
  bytes !! j = Some b -> pair_at txcmd j = hex_field 2 b ++ [NUL].
Proof.
  intros Hb. unfold pair_at.
  pose proof (lookup_lt_Some _ _ _ Hb) as Hj.
  destruct (payload_chars_lookup _ _ _ Hb) as [H0 H1].
  rewrite (tx_line_held (5 + 2 * j) (hex_char (b / 16 mod 16))),
          (tx_line_held (5 + 2 * j + 1) (hex_char (b mod 16))).
  - done.
  - rewrite tx_line_split, lookup_app_r by (cbn; lia).
    cbn [length hex_field app]. rewrite <- H1. f_equal. lia.
  - rewrite tx_line_split, lookup_app_r by (cbn; lia).
    cbn [length hex_field app]. rewrite <- H0. f_equal. lia.
Qed.

Lemma tx_line_decoded tx0 :
  decoded_frame txcmd tx0
  = CanFrame id (Z.of_nat (length bytes))
             (bytes ++ drop (length bytes) (data tx0)).
Proof.
  unfold decoded_frame.
  assert (Hi : id_field txcmd = hex_field 3 id ++ [NUL]).
  { unfold id_field.
    rewrite (tx_line_held 1 (hex_char (id / 16 / 16 mod 16))),
            (tx_line_held 2 (hex_char (id / 16 mod 16))),
            (tx_line_held 3 (hex_char (id mod 16)));
      try (rewrite tx_line_split; done). done. }
  assert (Hd : dlc_field txcmd
               = hex_field 1 (Z.of_nat (length bytes)) ++ [NUL]).
  { unfold dlc_field.
    rewrite (tx_line_held 4 (hex_char (Z.of_nat (length bytes) mod 16)));
      try (rewrite tx_line_split; done). done. }
  rewrite Hi, Hd, strtoul_hex_3, strtoul_hex_1 by lia.
  assert (Hu : u8 (Z.of_nat (length bytes)) = Z.of_nat (length bytes))
    by (apply Z.mod_small; lia).
  rewrite Hu, Z.min_l, Nat2Z.id by lia.
  rewrite (Z.mod_small id) by (change (2 ^ 32) with 4294967296; lia).
  do 2 f_equal. unfold payload_of.
  apply list_eq. intros j. rewrite list_lookup_fmap.
  destruct (bytes !! j) as [b|] eqn:Hb.
  - pose proof (lookup_lt_Some _ _ _ Hb) as Hj.
    rewrite lookup_seq_lt by done.
    cbn [fmap option_fmap option_map Nat.add].
    assert (Hb256 : 0 <= b < 256).
    { rewrite Forall_forall in Hbytes. apply Hbytes.
      eapply list_elem_of_lookup_2; eauto. }
    rewrite (tx_line_pair_at j b), strtoul_hex_2 by done.
    unfold u8. rewrite Z.mod_small; done.
  - apply lookup_ge_None in Hb. rewrite lookup_seq_ge by done. done.
Qed.

End TxLine.

(** X7 — Decoding a well-formed line.  A line made of 't' or 'T', three
    upper-case hex digits, the digit of a length up to 8 and two digits per
    byte makes [parseSlcan] send exactly that identifier, length and data and
    answer CR.  The identifier is taken as written, up to 0xFFF: nothing
    limits it to 11 bits.  The data slots after the last byte keep what the
    uninitialised frame held. *)
Theorem X7_decode_well_formed (c0 : ascii) (id : Z) (bytes : list Z)
    (stale : list ascii) (tx0 : can_frame) (st : state) :
  is_transmit c0 = true -> 0 <= id <= 0xFFF ->
  (length bytes <= 8)%nat -> Forall (fun b => 0 <= b < 256) bytes ->
  length (data tx0) = 8%nat ->
  parseSlcan (buffer_of (tx_line c0 id bytes) stale) tx0 st
  = Some (emit (SerialWrite1 CR)
            (emit (SendMessage
                     (CanFrame id (Z.of_nat (length bytes))
                        (bytes ++ drop (length bytes) (data tx0))))
               st)).
Proof.
  intros Ht Hid Hn Hbytes Hlen.
  rewrite parseSlcan_spec by (rewrite ?length_buffer_of; lia || done).
  rewrite dispatched_transmit
    by (rewrite (tx_line_held c0 id bytes Hn stale 0 c0); done).
  rewrite tx_line_decoded by (done || lia). done.
Qed.

Lemma X7_decode_well_formed_witness :
  parseSlcan (buffer_of (tx_line "T" 0xFFF [0xDE; 0xAD]) (chars "BEEF"))
    (CanFrame 7 7 [1; 2; 3; 4; 5; 6; 7; 8]) initial_state
  = Some (emit (SerialWrite1 CR)
            (emit (SendMessage (CanFrame 0xFFF 2 [0xDE; 0xAD; 3; 4; 5; 6; 7; 8]))
               initial_state)).
Proof.
  apply (X7_decode_well_formed "T" 0xFFF [0xDE; 0xAD] (chars "BEEF")
           (CanFrame 7 7 [1; 2; 3; 4; 5; 6; 7; 8]) initial_state); closed_wf.
Defined.

(** ** The encoder on a frame that is too long *)

Section Overrun.

#[local] Arguments Nat.add : simpl never.
#[local] Arguments Nat.mul : simpl never.

Variable f : can_frame.
Hypothesis Hlen : length (data f) = 8%nat.
Hypothesis Hbytes : Forall (fun b => 0 <= b < 256) (data f).
Hypothesis Hdlc : 8 < can_dlc f.

(** The ninth test of the condition still holds and reads [data[8]]. *)
Lemma send_payload_overrun fuel : forall i out,
  length out = 32%nat -> (i <= 8)%nat -> (8 - i < fuel)%nat ->
  send_payload fuel f i (5 + 2 * i) out = None.
Proof.
  induction fuel as [|fuel IH]; intros i out Hout Hi Hfuel; [lia|].
  cbn [send_payload].
  destruct (Z.ltb_spec (Z.of_nat i) (can_dlc f)) as [_|]; [|lia].
  destruct (decide (i < 8)%nat) as [Hlt|Hge].
  - destruct (lookup_lt_is_Some_2 (data f) i) as [b Hb]; [lia|].
    assert (Hb256 : 0 <= b < 256).
    { rewrite Forall_forall in Hbytes. apply Hbytes.
      eapply list_elem_of_lookup_2; eauto. }
    rewrite Hb. obind. rewrite fmt_X_2 by done.
    destruct (sprintf_Some out (5 + 2 * i) (hex_field 2 b))
      as (out1 & Hs & Hlen1 & _); [rewrite length_hex_field; lia|].
    rewrite Hs. obind. u8n_norm.
    replace (5 + 2 * i + 2)%nat with (5 + 2 * (i + 1))%nat by lia.
    apply IH; [congruence|lia|lia].
  - assert (i = 8%nat) by lia. subst i.
    rewrite (lookup_ge_None_2 (data f) 8) by lia. done.
Qed.

Lemma sendSlcanFrame_overrun out st :
  0 <= can_id f -> can_dlc f < 256 ->
  Z.land (can_id f) CAN_EFF_FLAG = 0 -> length out = 32%nat ->
  sendSlcanFrame f out st = None.
Proof.
  intros Hid Hd Hstd Hout. unfold sendSlcanFrame. rewrite Hstd.
  cbn [Z.eqb negb].
  destruct (store_Some out 0 "t"%char) as (o1 & -> & L1 & _); [lia|].
  obind. u8n_norm.
  assert (Hid3 : 0 <= Z.land (can_id f) 2047 < 4096).
  { split; [apply Z.land_nonneg; lia|].
    change 2047 with (Z.ones 11). rewrite Z.land_ones by lia.
    change (2 ^ 11) with 2048.
    pose proof (Z.mod_pos_bound (can_id f) 2048). lia. }
  assert (Hd1 : 0 <= Z.land (can_dlc f) 15 < 16).
  { split; [apply Z.land_nonneg; lia|].
    change 15 with (Z.ones 4). rewrite Z.land_ones by lia.
    apply Z.mod_pos_bound. done. }
  rewrite fmt_X_3, fmt_X_1 by done.
  destruct (sprintf_Some o1 1 (hex_field 3 (Z.land (can_id f) 2047)))
    as (o2 & Hs2 & L2 & _); [rewrite length_hex_field; lia|].
  change (0 + 1)%nat with 1%nat. rewrite Hs2. obind. u8n_norm.
  destruct (sprintf_Some o2 4 (hex_field 1 (Z.land (can_dlc f) 15)))
    as (o3 & Hs3 & L3 & _); [rewrite length_hex_field; lia|].
  change (1 + 3)%nat with 4%nat. rewrite Hs3. obind. u8n_norm.
  change (4 + 1)%nat with (5 + 2 * 0)%nat.
  rewrite send_payload_overrun by (congruence || lia). done.
Qed.

End Overrun.

(** X8 — The encoder has no cap at eight bytes.  Unlike the payload loop of
    [parseSlcan], the one of [sendSlcanFrame] runs up to [can_dlc]: for a
    frame without the extended flag whose [can_dlc] is above 8 it goes on to
    read [data[8]], outside the array, and the call has no defined result.
    The sketch relies on the controller never delivering such a frame. *)
Theorem X8_encoder_not_capped (f : can_frame) (out : list ascii) (st : state) :
  frame_wf f -> Z.land (can_id f) CAN_EFF_FLAG = 0 -> 8 < can_dlc f ->
  length out = 32%nat ->
  data f !! 8%nat = None /\ sendSlcanFrame f out st = None.
Proof.
  intros (Hid & Hd & Hlen & Hbytes) Hstd Hdlc Hout.
  split; [apply lookup_ge_None_2; lia|].
  apply sendSlcanFrame_overrun; try done; lia.
Qed.

Lemma X8_encoder_not_capped_witness :
  sendSlcanFrame (CanFrame 0x123 9 (replicate 8 0)) (replicate 32 NUL)
    initial_state = None.
Proof.
  refine (proj2 (X8_encoder_not_capped (CanFrame 0x123 9 (replicate 8 0))
                   (replicate 32 NUL) initial_state _ _ _ _)); closed_wf.
Defined.

(** ** Everything one iteration does *)

Lemma dispatched_trace cmd tx0 st :
  trace (dispatched cmd tx0 st) =
  trace st
  ++ map SendMessage (if is_transmit (nth 0 cmd NUL)
                      then [decoded_frame cmd tx0] else [])
  ++ [SerialWrite1 (if is_known (nth 0 cmd NUL) then CR else BEL)].
Proof.
  unfold dispatched, is_known, is_transmit. cbv zeta.
  destruct (nth 0 cmd NUL) as [[] [] [] [] [] [] [] []];
    cbn [Ascii.eqb Bool.eqb orb andb map app trace emit set_canOpen];
    rewrite <- ?app_assoc; reflexivity.
Qed.

Lemma nth_0_terminated st :
  (0 < slcanLen st)%nat ->
  nth 0 (terminated st) NUL = nth 0 (slcanBuf st) NUL.
Proof.
  intros Hp. unfold terminated.
  rewrite !nth_lookup, list_lookup_insert_ne by lia. done.
Qed.

Lemma loop_effects e st :
  state_wf st -> env_wf e ->
  exists st',
    loop e st = Some st' /\ state_wf st' /\
    trace st' =
      trace st ++ map SendMessage (sent_by e st)
      ++ map SerialWrite1 (response_of e st)
      ++ map SerialWriteN (if canOpen st' then forwarded_line e else []) /\
    canOpen st' =
      (if completes "O" e st then true
       else if completes "C" e st then false
       else canOpen st) /\
    (slcanBuf st', slcanLen st') = next_line e st.
Proof.
  intros Hst He.
  destruct (loop_total e st Hst He) as (st' & Hl & Hw & Ho & _).
  exists st'. split; [done|]. split; [done|].
  unfold loop in Hl.
  rewrite loop_serial_spec in Hl by (done || exact (proj1 (proj2 He))).
  cbn [mbind option_bind] in Hl. rewrite loop_can_spec in Hl by done.
  injection Hl as Hl.
  assert (Hcan : forall s,
    (if canOpen s then
       match can_rx e with
       | Some f =>
           if Z.land (can_id f) CAN_EFF_FLAG =? 0
           then emit (SerialWriteN (slcan_line f ++ [CR])) (set_rxFrame f s)
           else set_rxFrame f s
       | None => s
       end
     else s) = st' ->
    trace st' = trace s
                ++ map SerialWriteN (if canOpen st' then forwarded_line e else [])
    /\ canOpen st' = canOpen s /\ slcanBuf st' = slcanBuf s
    /\ slcanLen st' = slcanLen s).
  { intros s <-. unfold forwarded_line.
    destruct (canOpen s) eqn:Hos; [|rewrite Hos, app_nil_r; done].
    destruct (can_rx e) as [f|]; [|rewrite Hos, app_nil_r; done].
    destruct (Z.land (can_id f) CAN_EFF_FLAG =? 0);
      cbn [trace emit set_rxFrame canOpen slcanBuf slcanLen]; rewrite Hos;
      cbn [map]; rewrite ?app_nil_r; done. }
  apply Hcan in Hl as (Htr & Hop & Hbuf & Hlen). clear Hcan.
  rewrite Htr, Hbuf, Hlen. split; [|split; [done|]].
  - unfold sent_by, response_of, completes_line.
    destruct (serial_in e) as [c|]; [|cbn [app map]; done].
    destruct (is_terminator c); cbn [andb].
    + destruct (decide (0 < slcanLen st)%nat) as [Hp|Hp].
      * rewrite bool_decide_eq_true_2 by done.
        cbn [trace set_slcanLen]. rewrite dispatched_trace.
        rewrite nth_0_terminated by done.
        cbn [trace set_slcanBuf map]. rewrite <- !app_assoc. done.
      * rewrite bool_decide_eq_false_2 by done. done.
    + destruct (decide (slcanLen st + 1 < SLCAN_BUF_SIZE)%nat); done.
  - unfold next_line.
    destruct (serial_in e) as [c|]; [|done].
    destruct (is_terminator c).
    + destruct (decide (0 < slcanLen st)%nat); [|done].
      cbn [slcanBuf slcanLen set_slcanLen].
      rewrite (proj1 (proj2 (dispatched_globals _ _ _))). done.
    + destruct (decide (slcanLen st + 1 < SLCAN_BUF_SIZE)%nat); done.
Qed.



(** ** Commands and frames do not disturb each other *)

Lemma responses_pieces tr sent resp fwd :
  responses (tr ++ map SendMessage sent ++ map SerialWrite1 resp
             ++ map SerialWriteN fwd)
  = responses tr ++ resp.
Proof.
  unfold responses. rewrite !omap_app. 
  assert (H1 : forall l, omap (fun ev => match ev with
                 | SerialWrite1 c => Some c | _ => None end)
                 (map SendMessage l) = []) by (induction l; done).
  assert (H2 : forall l, omap (fun ev => match ev with
                 | SerialWrite1 c => Some c | _ => None end)
                 (map SerialWriteN l) = []) by (induction l; done).
  assert (H3 : forall l, omap (fun ev => match ev with
                 | SerialWrite1 c => Some c | _ => None end)
                 (map SerialWrite1 l) = l).
  { induction l as [|x l IH]; [done|]. cbn. f_equal. exact IH. }
  rewrite H1, H2, H3, app_nil_r. done.
Qed.

Lemma sent_frames_pieces tr sent resp fwd :
  sent_frames (tr ++ map SendMessage sent ++ map SerialWrite1 resp
               ++ map SerialWriteN fwd)
  = sent_frames tr ++ sent.
Proof.
  unfold sent_frames. rewrite !omap_app.
  assert (H1 : forall l, omap (fun ev => match ev with
                 | SendMessage f => Some f | _ => None end)
                 (map SerialWrite1 l) = []) by (induction l; done).
  assert (H2 : forall l, omap (fun ev => match ev with
                 | SendMessage f => Some f | _ => None end)
                 (map SerialWriteN l) = []) by (induction l; done).
  assert (H3 : forall l, omap (fun ev => match ev with
                 | SendMessage f => Some f | _ => None end)
                 (map SendMessage l) = l).
  { induction l as [|x l IH]; [done|]. cbn. f_equal. exact IH. }
  rewrite H1, H2, H3, !app_nil_r. done.
Qed.

Lemma mute_wf e : env_wf e -> env_wf (mute e).
Proof. intros (Ho & Ht & _). repeat split; done. Qed.

(** One iteration on two states that agree on the command side, with and
    without the frame of the controller. *)
Lemma loop_same_commands e a b :
  state_wf a -> state_wf b -> env_wf e -> same_commands a b ->
  exists a' b',
    loop e a = Some a' /\ loop (mute e) b = Some b' /\
    state_wf a' /\ state_wf b' /\ same_commands a' b'.
Proof.
  intros Ha Hb He (Hbuf & Hlen & Hop & Hresp & Hsent).
  destruct (loop_effects e a Ha He) as (a' & Hla & Hwa & Hta & Hoa & Hna).
  destruct (loop_effects (mute e) b Hb (mute_wf e He))
    as (b' & Hlb & Hwb & Htb & Hob & Hnb).
  exists a', b'. repeat (split; [done|]).
  assert (Hcomp : forall k, completes k (mute e) b = completes k e a).
  { intros k. unfold completes, mute. cbn [serial_in]. rewrite Hbuf, Hlen. done. }
  assert (Hline : completes_line (mute e) b = completes_line e a).
  { unfold completes_line, mute. cbn [serial_in]. rewrite Hlen. done. }
  assert (Hnext : next_line (mute e) b = next_line e a).
  { unfold next_line, mute, terminated. cbn [serial_in]. rewrite Hbuf, Hlen. done. }
  assert (Hsb : sent_by (mute e) b = sent_by e a).
  { unfold sent_by. rewrite Hline. unfold mute, terminated. cbn [txFrame0].
    rewrite Hbuf, Hlen. done. }
  assert (Hrb : response_of (mute e) b = response_of e a).
  { unfold response_of. rewrite Hline, Hbuf. done. }
  rewrite Hnext, <- Hna in Hnb. injection Hnb as Hb1 Hb2.
  rewrite !Hcomp, <- Hop, <- Hoa in Hob.
  unfold same_commands. rewrite Hta, Htb, !responses_pieces,
    !sent_frames_pieces, Hsb, Hrb, Hresp, Hsent. done.
Qed.

(** X10 — Frames do not disturb commands.  Whatever frames the controller
    delivers during a run, and whether they are forwarded or not, the line
    buffer, the bus flag, the answers to the commands and the frames sent to
    the controller come out as in the same run without any frame. *)
Theorem X10_frames_do_not_disturb_commands (es : list env) : forall st,
  state_wf st -> Forall env_wf es ->
  exists st1 st2,
    run es st = Some st1 /\ run (map mute es) st = Some st2 /\
    slcanBuf st1 = slcanBuf st2 /\ slcanLen st1 = slcanLen st2 /\
    canOpen st1 = canOpen st2 /\
    responses (trace st1) = responses (trace st2) /\
    sent_frames (trace st1) = sent_frames (trace st2).
Proof.
  assert (Hgen : forall es a b,
    state_wf a -> state_wf b -> Forall env_wf es -> same_commands a b ->
    exists a' b', run es a = Some a' /\ run (map mute es) b = Some b' /\
                  same_commands a' b').
  { clear es. induction es as [|e es IH]; intros a b Ha Hb Hes Hab.
    - exists a, b. done.
    - apply Forall_cons in Hes as [He Hes].
      destruct (loop_same_commands e a b Ha Hb He Hab)
        as (a1 & b1 & Hla & Hlb & Hwa & Hwb & Hab1).
      destruct (IH a1 b1 Hwa Hwb Hes Hab1) as (a' & b' & Hra & Hrb & Hab').
      exists a', b'. cbn [map run]. rewrite Hla, Hlb. done. }
  intros st Hst Hes.
  destruct (Hgen es st st Hst Hst Hes) as (a' & b' & Hra & Hrb & Hab).
  { repeat split. }
  exists a', b'. done.
Qed.

Lemma X10_frames_do_not_disturb_commands_witness :
  let f := CanFrame 0x123 1 (replicate 8 0xAB) in
  let es := [Env (Some "t"%char) (Some f) frame0 (replicate 32 NUL);
             Env (Some "1"%char) None frame0 (replicate 32 NUL);
             Env (Some CR) (Some f) frame0 (replicate 32 NUL)] in
  exists st1 st2,
    run es initial_state = Some st1 /\
    run (map mute es) initial_state = Some st2 /\
    slcanBuf st1 = slcanBuf st2 /\ slcanLen st1 = slcanLen st2 /\
    canOpen st1 = canOpen st2 /\
    responses (trace st1) = responses (trace st2) /\
    sent_frames (trace st1) = sent_frames (trace st2).
Proof.
  apply X10_frames_do_not_disturb_commands; [closed_wf|].
  repeat (apply Forall_cons; split; [closed_wf|]). apply Forall_nil. done.
Defined.

(** ** One answer for each line *)

Lemma run_answers (es : list env) : forall st,
  state_wf st -> Forall env_wf es ->
  exists st',
    run es st = Some st' /\
    length (responses (trace st'))
    = (length (responses (trace st))
       + answers_due (bool_decide (0 < slcanLen st)%nat) (omap serial_in es))%nat.
Proof.
  induction es as [|e es IH]; intros st Hst Hes.
  - exists st. cbn. split; [done|lia].
  - apply Forall_cons in Hes as [He Hes].
    destruct (loop_effects e st Hst He) as (st1 & Hl & Hw1 & Htr & _ & Hnext).
    destruct (IH st1 Hw1 Hes) as (st' & Hr & Hlen).
    exists st'. cbn [run]. rewrite Hl. obind. split; [done|].
    rewrite Hlen, Htr, responses_pieces, length_app.
    assert (Hs1 : slcanLen st1 = (next_line e st).2) by (rewrite <- Hnext; done).
    rewrite Hs1. clear Hlen Hr Htr Hnext Hs1 IH.
    unfold response_of, completes_line, next_line.
    change (omap serial_in (e :: es))
      with (match serial_in e with
            | Some y => y :: omap serial_in es
            | None => omap serial_in es
            end).
    destruct (serial_in e) as [c|]; [|cbn; lia].
    cbn [answers_due]. destruct (is_terminator c); cbn [andb].
    + destruct (decide (0 < slcanLen st)%nat) as [Hp|Hp].
      * rewrite (bool_decide_eq_true_2 _ Hp). cbn [snd length].
        rewrite (bool_decide_eq_false_2 (0 < 0)%nat) by lia. lia.
      * rewrite (bool_decide_eq_false_2 _ Hp). cbn [snd length].
        rewrite (bool_decide_eq_false_2 _ Hp). cbn. lia.
    + destruct (decide (slcanLen st + 1 < SLCAN_BUF_SIZE)%nat) as [Hf|Hf];
        cbn [snd length].
      * rewrite bool_decide_eq_true_2 by lia. lia.
      * destruct Hst as [_ Hlt].
        rewrite bool_decide_eq_true_2 by (unfold SLCAN_BUF_SIZE in *; lia). lia.
Qed.

(** X12 — One answer for each line.  Over any run, the number of answer
    bytes written (CR or BEL) is the number of terminators that end a line of
    at least one byte: a line too long for the buffer still gets its one
    answer, an empty line gets none, and a polled frame never causes one. *)
Theorem X12_one_answer_per_line (es : list env) (st : state) :
  state_wf st -> slcanLen st = 0%nat -> Forall env_wf es ->
  exists st',
    run es st = Some st' /\
    length (responses (trace st'))
    = (length (responses (trace st))
       + answers_due false (omap serial_in es))%nat.
Proof.
  intros Hst Hempty Hes.
  destruct (run_answers es st Hst Hes) as (st' & Hr & Hlen).
  exists st'. split; [done|]. rewrite Hlen, Hempty. done.
Qed.

Lemma X12_one_answer_per_line_witness :
  exists st',
    run (map byte_env (chars "O" ++ [CR; LF] ++ replicate 40 "x"%char
                       ++ [LF; CR] ++ chars "t" ++ [CR]))
      initial_state = Some st' /\
    length (responses (trace st')) = 3%nat.
Proof.
  apply (X12_one_answer_per_line
           (map byte_env (chars "O" ++ [CR; LF] ++ replicate 40 "x"%char
                          ++ [LF; CR] ++ chars "t" ++ [CR]))
           initial_state); [closed_wf|done|].
  repeat (apply Forall_cons; split; [closed_wf|]). apply Forall_nil. done.
Defined.
